(** * SteamID.js: the packed 64-bit identifier and its textual forms

    A shallow embedding of [src/SteamID.ts].  The class keeps one mutable
    field, [data : bigint]; every method reads or replaces it.  Here the
    field is a [Z] passed explicitly: a method that mutates takes the old
    value of [data] and returns the new one, a method that may [throw]
    returns a [result].

    JavaScript values are modelled as follows.
    - [bigint] is [Z]; [&], [|], [~], [<<], [>>] on bigints are [Z.land],
      [Z.lor], [Z.lnot], [Z.shiftl], [Z.shiftr] (both sides are two's
      complement with unbounded sign extension).
    - an integral [number] is a [Z] as well; the bitwise operators on
      numbers go through [ToInt32] and are written out below.
    - strings are [String.string]; the three regular expressions of the
      constructor are written as matchers returning the captured groups. *)

From Stdlib Require Import ZArith Bool List String Ascii Lia.
From Stdlib Require Import DecimalString HexadecimalString.
From Stdlib Require Import DecimalFacts DecimalPos.
From Stdlib Require HexadecimalPos HexadecimalN.
Import ListNotations.

Local Open Scope string_scope.
Local Open Scope Z_scope.

(** ** Exceptions *)

(** One constructor per [throw new Error(...)] of the source. *)
Inductive error : Set :=
| ErrExceedsUInt32      (* constructor, both string grammars *)
| ErrInvalid            (* constructor, last branch *)
| ErrNotIndividual      (* renderSteamInvite *)
| ErrNotNumeric         (* setFromUInt64 *)
| ErrAccountID          (* setAccountID *)
| ErrAccountInstance    (* setAccountInstance *)
| ErrAccountType        (* setAccountType *)
| ErrAccountUniverse.   (* setAccountUniverse *)

Definition message (e : error) : string :=
  match e with
  | ErrExceedsUInt32 => "Provide steamID exceeds max unsigned 32-bit integer."
  | ErrInvalid => "Provided SteamID is invalid."
  | ErrNotIndividual => "This can only be used on individual SteamID."
  | ErrNotNumeric => "Provided SteamID is not numeric."
  | ErrAccountID => "Account id can not be higher than 0xFFFFFFFF."
  | ErrAccountInstance => "Account instance can not be higher than 0xFFFF."
  | ErrAccountType => "Account type can not be higher than 0xF."
  | ErrAccountUniverse => "Account universe can not be higher than 0xFF."
  end%string.

Inductive result (A : Type) : Type :=
| Ok (a : A)
| Throw (e : error).
Arguments Ok {A} a.
Arguments Throw {A} e.

Definition bind {A B : Type} (m : result A) (k : A -> result B) : result B :=
  match m with
  | Ok a => k a
  | Throw e => Throw e
  end.

Notation "x <- m ;; k" := (bind m (fun x => k))
  (at level 61, m at next level, right associativity).

Definition succeeds {A : Type} (m : result A) : Prop := exists a, m = Ok a.

(** ** JavaScript primitives the class uses *)

(** The argument type [number | bigint | string] of the constructor and of
    [setFromUInt64].  A [number] is taken to be integral: [BigInt(x)] on a
    fractional number throws before anything is stored. *)
Inductive value : Set :=
| VNumber (n : Z)
| VBigInt (n : Z)
| VString (s : string).

(** [ToInt32]: the conversion every bitwise operator on numbers starts
    with. *)
Definition ToInt32 (x : Z) : Z := (x + 2 ^ 31) mod 2 ^ 32 - 2 ^ 31.

(** [x << n] on numbers. *)
Definition number_shl (x n : Z) : Z :=
  ToInt32 (Z.shiftl (ToInt32 x) (n mod 32)).

(** [x | y] on numbers. *)
Definition number_or (x y : Z) : Z := Z.lor (ToInt32 x) (ToInt32 y).

(** [x & y] on numbers. *)
Definition number_and (x y : Z) : Z := Z.land (ToInt32 x) (ToInt32 y).

(** [String(n)] and template interpolation of a bigint or an integral
    number: decimal digits, a leading minus for negatives. *)
Definition String_of (n : Z) : string :=
  DecimalString.NilZero.string_of_int (Z.to_int n).

(** [n.toString(16)] for a non-negative bigint (the only use is on the
    result of [getAccountID]): lowercase, no padding. *)
Definition toString16 (n : Z) : string :=
  HexadecimalString.NilZero.string_of_uint (N.to_hex_uint (Z.to_N n)).

(** [Number(s)] and [BigInt(s)] on a string of decimal digits, the only
    strings the class converts (captured groups of [[0-9]] classes).  The
    value is exact; a [number] is exact up to 2^53 only, but the one group
    that can be longer is the instance, and a double that large is above
    [0xFFFF] like the exact value, so [setAccountInstance] throws in both. *)
Definition Number_of (s : string) : Z :=
  match DecimalString.NilZero.uint_of_string s with
  | Some d => Z.of_uint d
  | None => 0
  end.

(** [value.toString()].  The decimal digits are what a number prints as
    below 10^21; from there on it prints with an exponent, which no
    expression of the constructor matches either. *)
Definition toString (v : value) : string :=
  match v with
  | VNumber n | VBigInt n => String_of n
  | VString s => s
  end.

(** [BigInt(value)], reached only after [isNumeric(value)]. *)
Definition BigInt (v : value) : Z :=
  match v with
  | VNumber n | VBigInt n => n
  | VString s => Number_of s
  end.

(** *** Character classes and the three regular expressions *)

Definition in_range (lo hi c : ascii) : bool :=
  (nat_of_ascii lo <=? nat_of_ascii c)%nat && (nat_of_ascii c <=? nat_of_ascii hi)%nat.

Definition is_digit (c : ascii) : bool := in_range "0" "9" c.

Fixpoint all_digits (s : string) : bool :=
  match s with
  | EmptyString => true
  | String c s' => is_digit c && all_digits s'
  end.

(** The longest prefix of digits and what follows it. *)
Fixpoint span_digits (s : string) : string * string :=
  match s with
  | EmptyString => (EmptyString, EmptyString)
  | String c s' =>
      if is_digit c
      then let (d, r) := span_digits s' in (String c d, r)
      else (EmptyString, s)
  end.

(** [0|[1-9][0-9]{0,9}], anchored on both sides. *)
Definition re_id (s : string) : bool :=
  match s with
  | EmptyString => false
  | String c rest =>
      if Ascii.eqb c "0" then String.eqb rest EmptyString
      else in_range "1" "9" c && all_digits rest && (String.length rest <=? 9)%nat
  end.

(** [/^[1-9][0-9]{0,19}$/]. *)
Definition re_numeric (s : string) : bool :=
  match s with
  | EmptyString => false
  | String c rest =>
      in_range "1" "9" c && all_digits rest && (String.length rest <=? 19)%nat
  end.

Fixpoint strip_prefix (p s : string) : option string :=
  match p, s with
  | EmptyString, _ => Some s
  | String a p', String b s' => if Ascii.eqb a b then strip_prefix p' s' else None
  | String _ _, EmptyString => None
  end.

(** The groups of a match of the legacy expression. *)
Record steam2_groups : Set :=
  { s2_universe : string; s2_authServer : string; s2_id : string }.

(** [/^STEAM_(?<universe>[0-4]):(?<authServer>[0-1]):(?<id>0|[1-9][0-9]{0,9})$/] *)
Definition match_steam2 (s : string) : option steam2_groups :=
  match strip_prefix "STEAM_" s with
  | Some (String u (String c1 (String a (String c2 id)))) =>
      if in_range "0" "4" u && Ascii.eqb c1 ":" && in_range "0" "1" a
         && Ascii.eqb c2 ":" && re_id id
      then Some {| s2_universe := String u EmptyString;
                   s2_authServer := String a EmptyString;
                   s2_id := id |}
      else None
  | _ => None
  end.

(** The groups of a match of the bracketed expression; [s3_instance] is
    [None] where the group did not take part ([undefined] in the source). *)
Record steam3_groups : Set :=
  { s3_type : string; s3_universe : string; s3_id : string;
    s3_instance : option string }.

(** The character class [[AGMPCgcLTIUai]]. *)
Definition is_type_char (c : ascii) : bool :=
  existsb (Ascii.eqb c)
    ["A"; "G"; "M"; "P"; "C"; "g"; "c"; "L"; "T"; "I"; "U"; "a"; "i"]%char.

(** [/^\[(?<type>[AGMPCgcLTIUai]):(?<universe>[0-4]):(?<id>0|[1-9][0-9]{0,9})(?:\:(?<instance>[0-9]+))?\]$/].
    The id is followed by [:] or by the closing bracket, never by a digit,
    so it is the whole run of digits after the second colon; likewise the
    instance. *)
Definition match_steam3 (s : string) : option steam3_groups :=
  match s with
  | String b (String t (String c1 (String u (String c2 rest)))) =>
      let (id, after_id) := span_digits rest in
      if Ascii.eqb b "[" && is_type_char t && Ascii.eqb c1 ":"
         && in_range "0" "4" u && Ascii.eqb c2 ":" && re_id id
      then
        let groups i := {| s3_type := String t EmptyString;
                           s3_universe := String u EmptyString;
                           s3_id := id; s3_instance := i |} in
        match after_id with
        | String x EmptyString =>
            if Ascii.eqb x "]" then Some (groups None) else None
        | String x tail =>
            let (inst, close) := span_digits tail in
            if Ascii.eqb x ":" && negb (String.eqb inst EmptyString)
               && String.eqb close "]"
            then Some (groups (Some inst)) else None
        | EmptyString => None
        end
      else None
  | _ => None
  end.

(** *** The two helper functions at the end of the file *)

(** [array_search(needle, haystack)]: the first index holding [needle],
    [-1] when there is none. *)
Fixpoint array_search_from (i : Z) (needle : string) (haystack : list string) : Z :=
  match haystack with
  | [] => -1
  | h :: rest =>
      if String.eqb needle h then i else array_search_from (i + 1) needle rest
  end.

Definition array_search (needle : string) (haystack : list string) : Z :=
  array_search_from 0 needle haystack.

(** One turn of the loop of [replace]: what the [switch] appends to [r].
    There is no [default], so any other character appends nothing. *)
Definition replace_char (c : ascii) : string :=
  match c with
  | "0"%char => "b" | "1"%char => "c" | "2"%char => "d" | "3"%char => "f"
  | "4"%char => "g" | "5"%char => "h" | "6"%char => "j" | "7"%char => "k"
  | "8"%char => "m" | "9"%char => "n" | "a"%char => "p" | "b"%char => "q"
  | "c"%char => "e" | "d"%char => "t" | "e"%char => "v" | "f"%char => "w"
  | _ => EmptyString
  end%string.

(** [replace(str)], with [r] the accumulator of the loop. *)
Fixpoint replace_loop (r str : string) : string :=
  match str with
  | EmptyString => r
  | String char rest => replace_loop (r ++ replace_char char) rest
  end.

Definition replace (str : string) : string := replace_loop EmptyString str.

(** [s.substring(start, end)] and [s.substring(start)] with indices that
    are numbers, possibly fractional ([length / 2]): both are truncated
    toward zero first.  The index is given here as the quotient
    [num / den] it was computed from. *)
Definition trunc_index (num den : Z) : nat := Z.to_nat (Z.quot num den).

Definition substring_to (stop : nat) (s : string) : string :=
  String.substring 0 stop s.

Definition substring_from (start : nat) (s : string) : string :=
  String.substring start (String.length s - start) s.

(** ** The class *)

Module SteamID.

Definition UniverseInvalid := 0.
Definition UniversePublic := 1.
Definition UniverseBeta := 2.
Definition UniverseInternal := 3.
Definition UniverseDev := 4.

Definition TypeInvalid := 0.
Definition TypeIndividual := 1.
Definition TypeMultiseat := 2.
Definition TypeGameServer := 3.
Definition TypeAnonGameServer := 4.
Definition TypePending := 5.
Definition TypeContentServer := 6.
Definition TypeClan := 7.
Definition TypeChat := 8.
Definition TypeP2PSuperSeeder := 9.
Definition TypeAnonUser := 10.

Definition AllInstances := 0.
Definition DesktopInstance := 1.
Definition ConsoleInstance := 2.
Definition WebInstance := 4.

Definition InstanceFlagClan := 524288.
Definition InstanceFlagLobby := 262144.
Definition InstanceFlagMMSLobby := 131072.

(** [private get(bitOffset, valueMask)]:
    [(this.data >> bitOffset) & valueMask]. *)
Definition get (bitOffset valueMask data : Z) : Z :=
  Z.land (Z.shiftr data bitOffset) valueMask.

(** [private set(bitOffset, valueMask, value)]: the new [this.data],
    [(data & ~(valMask << bOffset)) | ((val & valMask) << bOffset)]. *)
Definition set (bitOffset valueMask value data : Z) : Z :=
  Z.lor (Z.land data (Z.lnot (Z.shiftl valueMask bitOffset)))
        (Z.shiftl (Z.land value valueMask) bitOffset).

Definition getAccountID (data : Z) : Z := get 0 4294967295 data.
Definition getAccountInstance (data : Z) : Z := get 32 1048575 data.
Definition getAccountType (data : Z) : Z := get 52 15 data.
Definition getAccountUniverse (data : Z) : Z := get 56 255 data.

(** The four setters: the guard of the source, with the literal the
    source compares against, then [set]. *)
Definition setAccountID (value data : Z) : result Z :=
  if (value <? 0) || (value >? 0xFFFFFFFF) then Throw ErrAccountID
  else Ok (set 0 4294967295 value data).

Definition setAccountInstance (value data : Z) : result Z :=
  if (value <? 0) || (value >? 0xFFFF) then Throw ErrAccountInstance
  else Ok (set 32 1048575 value data).

Definition setAccountType (value data : Z) : result Z :=
  if (value <? 0) || (value >? 0xF) then Throw ErrAccountType
  else Ok (set 52 15 value data).

Definition setAccountUniverse (value data : Z) : result Z :=
  if (value <? 0) || (value >? 0xFF) then Throw ErrAccountUniverse
  else Ok (set 56 255 value data).

(** The table of type characters, index = type code. *)
Definition accountTypeChars : list string :=
  ["I"; "U"; "M"; "G"; "A"; "P"; "C"; "g"; "T"; EmptyString; "a"]%string.

Definition isNumeric (n : value) : bool :=
  match n with
  | VNumber n | VBigInt n => n >? 0
  | VString s => re_numeric s
  end.

(** The branch of the constructor taken when the legacy expression
    matched. *)
Definition fromSteam2 (groups : steam2_groups) (data : Z) : result Z :=
  let accountID := Number_of (s2_id groups) in
  if accountID >=? 4294967295 then Throw ErrExceedsUInt32
  else
    let universe := Number_of (s2_universe groups) in
    let universe :=
      if universe =? UniverseInvalid then UniversePublic else universe in
    let authServer := Number_of (s2_authServer groups) in
    let accountID := number_or (number_shl accountID 1) authServer in
    data <- setAccountUniverse universe data ;;
    data <- setAccountInstance DesktopInstance data ;;
    data <- setAccountType TypeIndividual data ;;
    setAccountID accountID data.

(** The instance chosen from the type character and the optional group,
    before the [c] / [L] override. *)
Definition resolveInstance (type : string) (instance : option string) : Z :=
  if String.eqb type "T" || String.eqb type "g" then AllInstances
  else match instance with
       | Some i => Number_of i
       | None => if String.eqb type "U" then DesktopInstance else AllInstances
       end.

(** The branch taken when the bracketed expression matched. *)
Definition fromSteam3 (groups : steam3_groups) (data : Z) : result Z :=
  let accountID := Number_of (s3_id groups) in
  if accountID >=? 4294967295 then Throw ErrExceedsUInt32
  else
    let type := s3_type groups in
    let type := if String.eqb type "i" then "I"%string else type in
    let instanceID := resolveInstance type (s3_instance groups) in
    typed <-
      (if String.eqb type "c" then Ok (InstanceFlagClan, data)
       else if String.eqb type "L" then Ok (InstanceFlagClan, data)
       else
         let accountType := array_search type accountTypeChars in
         data <- setAccountType accountType data ;;
         Ok (instanceID, data)) ;;
    let (instanceID, data) := typed : Z * Z in
    data <- setAccountUniverse (Number_of (s3_universe groups)) data ;;
    data <- setAccountInstance instanceID data ;;
    setAccountID accountID data.

(** [new SteamID(value)]; [None] is [null], the default argument.  The
    result is the [data] of the new object. *)
Definition constructor (value : option value) : result Z :=
  let data := 0 in
  match value with
  | None => Ok data
  | Some value =>
      match match_steam2 (toString value) with
      | Some groups => fromSteam2 groups data
      | None =>
          match match_steam3 (toString value) with
          | Some groups => fromSteam3 groups data
          | None =>
              if isNumeric value then Ok (BigInt value)
              else Throw ErrInvalid
          end
      end
  end.

Definition renderSteam2 (data : Z) : string :=
  let type := getAccountType data in
  if (type =? TypeInvalid) || (type =? TypeIndividual) then
    let universe := getAccountUniverse data in
    let accountID := getAccountID data in
    "STEAM_" ++ String_of universe ++ ":" ++ String_of (Z.land accountID 1)
      ++ ":" ++ String_of (Z.shiftr accountID 1)
  else String_of data.

Definition renderSteam3 (data : Z) : string :=
  let accountInstance := getAccountInstance data in
  let accountType := getAccountType data in
  let accountTypeChar :=
    nth_error accountTypeChars (Z.to_nat accountType) in
  let accountTypeChar :=
    match accountTypeChar with Some c => c | None => "i" end in
  let accountTypeChar :=
    if accountType =? TypeChat then
      if negb (number_and accountInstance InstanceFlagClan =? 0) then "c"
      else if negb (number_and accountInstance InstanceFlagLobby =? 0) then "L"
      else accountTypeChar
    else accountTypeChar in
  let renderInstance :=
    (accountType =? TypeAnonGameServer) || (accountType =? TypeMultiseat) in
  let ret := "[" ++ accountTypeChar ++ ":"
               ++ String_of (getAccountUniverse data) ++ ":"
               ++ String_of (getAccountID data) in
  let ret := if renderInstance then ret ++ ":" ++ String_of accountInstance
             else ret in
  ret ++ "]".

Definition renderSteamInvite (data : Z) : result string :=
  let type := getAccountType data in
  if (type =? TypeInvalid) || (type =? TypeIndividual) then
    let code := toString16 (getAccountID data) in
    let code := replace code in
    let length := Z.of_nat (String.length code) in
    if length >? 3 then
      let offset := trunc_index length 2 in
      Ok (substring_to offset code ++ "-" ++ substring_from offset code)
    else Ok code
  else Throw ErrNotIndividual.

Definition setFromUInt64 (value : value) (data : Z) : result Z :=
  if isNumeric value then Ok (BigInt value) else Throw ErrNotNumeric.

Definition convertToUInt64 (data : Z) : string := String_of data.

Definition isValid (data : Z) : bool :=
  let accountType := getAccountType data in
  if (accountType <=? TypeInvalid) || (accountType >? TypeAnonUser) then false
  else
    let accountUniverse := getAccountUniverse data in
    if (accountUniverse <=? UniverseInvalid) || (accountUniverse >? UniverseDev)
    then false
    else
      let accountID := getAccountID data in
      let accountInstance := getAccountInstance data in
      if (accountType =? TypeIndividual)
         && ((accountID =? 0) || negb (accountInstance =? 0)) then false
      else if (accountType =? TypeClan)
         && ((accountID =? 0) || negb (accountInstance =? 0)) then false
      else if (accountType =? TypeGameServer) && (accountID =? 0) then false
      else true.

End SteamID.

Import SteamID.

(** ** Vocabulary of the statements *)

(** The four bit fields, to quantify over them. *)
Inductive field : Set :=
| AccountID | AccountInstance | AccountType | AccountUniverse.

Definition getter (f : field) : Z -> Z :=
  match f with
  | AccountID => getAccountID
  | AccountInstance => getAccountInstance
  | AccountType => getAccountType
  | AccountUniverse => getAccountUniverse
  end.

Definition setter (f : field) : Z -> Z -> result Z :=
  match f with
  | AccountID => setAccountID
  | AccountInstance => setAccountInstance
  | AccountType => setAccountType
  | AccountUniverse => setAccountUniverse
  end.

(** Where each field lies, and the literal its setter compares the
    candidate against. *)
Definition offset (f : field) : Z :=
  match f with
  | AccountID => 0 | AccountInstance => 32 | AccountType => 52 | AccountUniverse => 56
  end.

Definition width (f : field) : Z :=
  match f with
  | AccountID => 32 | AccountInstance => 20 | AccountType => 4 | AccountUniverse => 8
  end.

Definition limit (f : field) : Z :=
  match f with
  | AccountID => 0xFFFFFFFF | AccountInstance => 0xFFFF
  | AccountType => 0xF | AccountUniverse => 0xFF
  end.

(** The packed value fits an unsigned 64-bit quantity. *)
Definition uint64 (data : Z) : Prop := 0 <= data < 2 ^ 64.

(** The legacy string of universe [u] and account number [a]:
    [STEAM_{u}:{a&1}:{a>>1}]. *)
Definition legacy_string (u a : Z) : string :=
  "STEAM_" ++ String_of u ++ ":" ++ String_of (Z.land a 1)
    ++ ":" ++ String_of (Z.shiftr a 1).

(** The legacy string written from its three groups: universe [u], auth
    server [b] and half account number [h]. *)
Definition legacy_parts (u b h : Z) : string :=
  "STEAM_" ++ String_of u ++ ":" ++ String_of b ++ ":" ++ String_of h.

(** The bracketed string of a type character, a universe, an account
    number and an optional instance. *)
Definition bracketed_string (t : ascii) (u a : Z) (i : option Z) : string :=
  String "[" (String t (":" ++ String_of u ++ ":" ++ String_of a
    ++ match i with
       | None => "]"
       | Some i => ":" ++ String_of i ++ "]"
       end)).

(** The type characters the bracketed branch looks up in
    [accountTypeChars], each with its index there; [i] is read as [I]. *)
Definition bracket_types : list (ascii * Z) :=
  [("I", 0); ("i", 0); ("U", 1); ("M", 2); ("G", 3); ("A", 4);
   ("P", 5); ("C", 6); ("g", 7); ("T", 8); ("a", 10)]%char.

(** The instance the bracketed branch stores for a type character in
    [bracket_types] and an optional instance segment that reads [i]. *)
Definition bracket_instance (t : ascii) (i : option Z) : Z :=
  if Ascii.eqb t "T" || Ascii.eqb t "g" then 0
  else match i with
       | Some i => i
       | None => if Ascii.eqb t "U" then 1 else 0
       end.

(** The packed value with the four fields given. *)
Definition packed (universe type instance accountID : Z) : Z :=
  accountID + 2 ^ 32 * instance + 2 ^ 52 * type + 2 ^ 56 * universe.

(** *** The invite code, told the way the specification tells it *)

(** The fixed substitution over the hexadecimal alphabet. *)
Definition invite_table : list (ascii * ascii) :=
  [("0", "b"); ("1", "c"); ("2", "d"); ("3", "f");
   ("4", "g"); ("5", "h"); ("6", "j"); ("7", "k");
   ("8", "m"); ("9", "n"); ("a", "p"); ("b", "q");
   ("c", "e"); ("d", "t"); ("e", "v"); ("f", "w")]%char.

Definition substitute (c : ascii) : ascii :=
  match find (fun p => Ascii.eqb (fst p) c) invite_table with
  | Some p => snd p
  | None => c
  end.

(** A hyphen after position [floor (length / 2)] when the length exceeds
    3. *)
Definition hyphenate (l : list ascii) : list ascii :=
  let n := List.length l in
  if (3 <? n)%nat
  then firstn (n / 2)%nat l ++ "-"%char :: skipn (n / 2)%nat l
  else l.

Definition invite_code (accountID : Z) : string :=
  string_of_list_ascii
    (hyphenate (List.map substitute (list_ascii_of_string (toString16 accountID)))).

(** ** Bit fields *)

Section BitFields.

(** A field is [w] bits wide and starts at bit [off]; its mask is
    [Z.ones w]. *)
Variables off w : Z.
Hypothesis off_nonneg : 0 <= off.
Hypothesis w_nonneg : 0 <= w.

Lemma testbit_field_mask (n : Z) :
  Z.testbit (Z.shiftl (Z.ones w) off) n = (off <=? n) && (n <? off + w).
Proof.
  destruct (Z.ltb_spec n 0) as [Hn | Hn].
  - rewrite Z.testbit_neg_r by assumption.
    destruct (Z.leb_spec off n); [lia | reflexivity].
  - rewrite Z.shiftl_spec by assumption.
    destruct (Z.leb_spec off n) as [Ho | Ho].
    + rewrite Z.testbit_ones_nonneg by lia.
      destruct (Z.ltb_spec (n - off) w), (Z.ltb_spec n (off + w)); lia || reflexivity.
    + apply Z.testbit_neg_r. lia.
Qed.

Lemma testbit_field_value (v n : Z) :
  Z.testbit (Z.shiftl (Z.land v (Z.ones w)) off) n =
  (off <=? n) && (n <? off + w) && Z.testbit v (n - off).
Proof.
  destruct (Z.ltb_spec n 0) as [Hn | Hn].
  - rewrite Z.testbit_neg_r by assumption.
    destruct (Z.leb_spec off n); [lia | reflexivity].
  - rewrite Z.shiftl_spec, Z.land_spec by assumption.
    destruct (Z.leb_spec off n) as [Ho | Ho].
    + rewrite Z.testbit_ones_nonneg by lia.
      destruct (Z.ltb_spec (n - off) w), (Z.ltb_spec n (off + w));
        try lia; simpl; rewrite ?andb_true_r, ?andb_false_r; reflexivity.
    + rewrite (Z.testbit_neg_r v) by lia. reflexivity.
Qed.

(** Bit [n] of the value [set] leaves: inside the field the bit of
    [v], outside it the bit that was there. *)
Lemma testbit_set (v d n : Z) :
  Z.testbit (set off (Z.ones w) v d) n =
  if (off <=? n) && (n <? off + w) then Z.testbit v (n - off)
  else Z.testbit d n.
Proof.
  destruct (Z.lt_ge_cases n 0) as [Hn | Hn].
  - replace ((off <=? n) && (n <? off + w)) with false
      by (symmetry; apply andb_false_intro1, Z.leb_gt; lia).
    rewrite (Z.testbit_neg_r d) by assumption.
    apply Z.testbit_neg_r; assumption.
  - unfold set.
    rewrite Z.lor_spec, Z.land_spec, Z.lnot_spec, testbit_field_value by assumption.
    rewrite testbit_field_mask.
    destruct ((off <=? n) && (n <? off + w)); simpl.
    + rewrite andb_false_r. reflexivity.
    + rewrite andb_true_r, orb_false_r. reflexivity.
Qed.

Lemma testbit_get (d n : Z) :
  0 <= n ->
  Z.testbit (get off (Z.ones w) d) n = (n <? w) && Z.testbit d (n + off).
Proof.
  intros Hn. unfold get.
  rewrite Z.land_spec, Z.shiftr_spec, Z.testbit_ones_nonneg by lia.
  apply andb_comm.
Qed.

(** Reading back the field that was written. *)
Lemma get_set_same (v d : Z) :
  0 <= v < 2 ^ w -> get off (Z.ones w) (set off (Z.ones w) v d) = v.
Proof.
  intros Hv. apply Z.bits_inj'. intros n Hn.
  rewrite testbit_get, testbit_set by assumption.
  destruct (Z.ltb_spec n w) as [Hw | Hw]; simpl.
  - replace ((off <=? n + off) && (n + off <? off + w)) with true.
    + f_equal. lia.
    + symmetry. apply andb_true_intro.
      split; [apply Z.leb_le | apply Z.ltb_lt]; lia.
  - symmetry. destruct (Z.eq_dec v 0) as [-> | Hne].
    + apply Z.testbit_0_l.
    + apply Z.bits_above_log2; [lia |].
      apply Z.lt_le_trans with w; [| assumption].
      apply Z.log2_lt_pow2; lia.
Qed.

(** A field that does not overlap the written one reads as before. *)
Lemma get_set_other (off' w' v d : Z) :
  0 <= off' -> 0 <= w' ->
  off + w <= off' \/ off' + w' <= off ->
  get off' (Z.ones w') (set off (Z.ones w) v d) = get off' (Z.ones w') d.
Proof.
  intros Ho' Hw' Hdisj. apply Z.bits_inj'. intros n Hn.
  unfold get at 1 2.
  rewrite !Z.land_spec, !Z.shiftr_spec by assumption.
  rewrite Z.testbit_ones_nonneg by assumption.
  destruct (Z.ltb_spec n w') as [Hlt | Hge].
  - rewrite !andb_true_r, testbit_set.
    destruct (Z.leb_spec off (n + off')), (Z.ltb_spec (n + off') (off + w));
      simpl; try reflexivity; lia.
  - rewrite !andb_false_r. reflexivity.
Qed.

(** [set] keeps a 64-bit value 64-bit when the field lies below bit 64,
    whatever is written. *)
Lemma set_uint64 (v d : Z) :
  off + w <= 64 -> uint64 d -> uint64 (set off (Z.ones w) v d).
Proof.
  intros Hfit [Hd0 Hd1].
  assert (Hhigh : forall n, 64 <= n -> Z.testbit (set off (Z.ones w) v d) n = false).
  { intros n Hn. rewrite testbit_set.
    destruct (Z.leb_spec off n), (Z.ltb_spec n (off + w)); simpl; try lia;
      (destruct (Z.eq_dec d 0) as [-> | Hne];
       [apply Z.testbit_0_l
       | apply Z.bits_above_log2; [lia |];
         apply Z.lt_le_trans with 64; [apply Z.log2_lt_pow2; lia | lia]]). }
  assert (Hnn : 0 <= set off (Z.ones w) v d).
  { unfold set. apply Z.lor_nonneg. split.
    - apply Z.land_nonneg. left. assumption.
    - apply Z.shiftl_nonneg, Z.land_nonneg. right.
      rewrite Z.ones_equiv. pose proof (Z.pow_pos_nonneg 2 w). lia. }
  split; [assumption |].
  destruct (Z.eq_dec (set off (Z.ones w) v d) 0) as [E | E]; [rewrite E; lia |].
  apply Z.log2_lt_pow2; [lia |].
  destruct (Z.lt_ge_cases (Z.log2 (set off (Z.ones w) v d)) 64) as [L | L];
    [assumption |].
  specialize (Hhigh _ L).
  rewrite Z.bit_log2 in Hhigh by lia. discriminate.
Qed.

Lemma set_nonneg (v d : Z) : 0 <= d -> 0 <= set off (Z.ones w) v d.
Proof.
  intros Hd. unfold set. apply Z.lor_nonneg. split.
  - apply Z.land_nonneg. left. assumption.
  - apply Z.shiftl_nonneg, Z.land_nonneg. right.
    rewrite Z.ones_equiv. pose proof (Z.pow_pos_nonneg 2 w). lia.
Qed.

End BitFields.

(** ** Decimal strings *)

Section Decimal.

Import Decimal.

Lemma is_digit_uint_of_char (c : ascii) (d : uint) :
  is_digit c = true -> exists d', DecimalString.uint_of_char c (Some d) = Some d' /\ nb_digits d' = S (nb_digits d).
Proof.
  destruct c as [[] [] [] [] [] [] [] []]; intros H;
    try discriminate H; eexists; split; reflexivity.
Qed.

Lemma all_digits_uint_of_string (s : string) :
  all_digits s = true ->
  exists d, DecimalString.NilEmpty.uint_of_string s = Some d /\ nb_digits d = String.length s.
Proof.
  induction s as [| c s IH]; simpl; intros H.
  - exists Nil. split; reflexivity.
  - apply andb_prop in H. destruct H as [Hc Hs].
    destruct (IH Hs) as (d & Hd & Hlen). rewrite Hd.
    destruct (is_digit_uint_of_char c d Hc) as (d' & Hd' & Hlen').
    exists d'. split; [assumption | congruence].
Qed.

Lemma string_of_uint_all_digits (d : uint) :
  all_digits (DecimalString.NilEmpty.string_of_uint d) = true.
Proof. induction d; simpl; auto. Qed.

Lemma string_of_uint_length (d : uint) :
  String.length (DecimalString.NilEmpty.string_of_uint d) = nb_digits d.
Proof. induction d; simpl; auto. Qed.

(** The accumulator of [Pos.of_uint_acc] is the leading part of the
    number read. *)
Lemma of_uint_acc_bounds (l : uint) : forall acc : positive,
  Z.pos acc * 10 ^ Z.of_nat (nb_digits l) <= Z.pos (Pos.of_uint_acc l acc)
    < (Z.pos acc + 1) * 10 ^ Z.of_nat (nb_digits l).
Proof.
  induction l as [| l IH | l IH | l IH | l IH | l IH | l IH | l IH | l IH | l IH | l IH];
    intros acc; cbn [Pos.of_uint_acc nb_digits];
    [ rewrite Z.pow_0_r; lia | .. ];
    rewrite Nat2Z.inj_succ, Z.pow_succ_r by lia;
    match goal with
    | |- context [Pos.of_uint_acc l ?a] => specialize (IH a)
    end;
    rewrite ?Pos2Z.inj_add, ?Pos2Z.inj_mul in IH;
    assert (HP : 0 < 10 ^ Z.of_nat (nb_digits l)) by (apply Z.pow_pos_nonneg; lia);
    nia.
Qed.

(** Reading back what [String] printed. *)
Lemma Number_of_String_of (n : Z) : 0 <= n -> Number_of (String_of n) = n.
Proof.
  intros Hn. destruct n as [| p | p]; [reflexivity | | lia].
  unfold Number_of, String_of. cbn [Z.to_int DecimalString.NilZero.string_of_int].
  rewrite DecimalString.NilZero.usu by apply DecimalPos.Unsigned.to_uint_nonnil.
  unfold Z.of_uint. rewrite DecimalPos.Unsigned.of_to. reflexivity.
Qed.

Lemma to_uint_normal (p : positive) : unorm (Pos.to_uint p) = Pos.to_uint p.
Proof.
  rewrite <- (DecimalPos.Unsigned.to_of (Pos.to_uint p)).
  rewrite DecimalPos.Unsigned.of_to. reflexivity.
Qed.

(** The decimal string of a positive number: a first digit that is not
    zero, digits after it, and as many of them as the size of the number
    allows. *)
Lemma String_of_pos_shape (p : positive) :
  exists c rest,
    String_of (Z.pos p) = String c rest
    /\ Ascii.eqb c "0" = false /\ in_range "1" "9" c = true
    /\ all_digits rest = true
    /\ 10 ^ Z.of_nat (String.length rest) <= Z.pos p.
Proof.
  unfold String_of. cbn [Z.to_int DecimalString.NilZero.string_of_int].
  pose proof (DecimalPos.Unsigned.to_uint_nonnil p) as Hnil.
  pose proof (DecimalPos.Unsigned.to_uint_nonzero p) as Hnz.
  pose proof (to_uint_normal p) as Hnorm.
  pose proof (DecimalPos.Unsigned.of_to p) as Hof.
  destruct (Pos.to_uint p) as [| l | l | l | l | l | l | l | l | l | l] eqn:E;
    [ congruence
    | exfalso; unfold unorm in Hnorm; rewrite DecimalFacts.nzhead_D0 in Hnorm;
      destruct (nzhead l) eqn:Hl; try discriminate Hnorm;
      [ congruence | apply (DecimalFacts.nzhead_nonzero l l); congruence ]
    | .. ];
    cbn [DecimalString.NilZero.string_of_uint DecimalString.NilEmpty.string_of_uint];
    do 2 eexists; (split; [reflexivity |]);
    (split; [reflexivity |]); (split; [reflexivity |]);
    (split; [apply string_of_uint_all_digits |]);
    rewrite string_of_uint_length;
    cbn [Pos.of_uint] in Hof; injection Hof as <-;
    match goal with
    | |- context [Pos.of_uint_acc l ?a] =>
        pose proof (of_uint_acc_bounds l a) as B
    end;
    assert (0 < 10 ^ Z.of_nat (nb_digits l)) by (apply Z.pow_pos_nonneg; lia);
    nia.
Qed.

(** Every number below 10^10 prints as a match of [0|[1-9][0-9]{0,9}]. *)
Lemma re_id_String_of (n : Z) :
  0 <= n < 10 ^ 10 -> re_id (String_of n) = true.
Proof.
  intros [Hn0 Hn1]. destruct n as [| p | p]; [reflexivity | | lia].
  destruct (String_of_pos_shape p) as (c & rest & -> & Hc0 & Hc & Hrest & Hlen).
  unfold re_id. rewrite Hc0, Hc, Hrest. cbn [andb].
  apply Nat.leb_le.
  destruct (Nat.le_gt_cases (String.length rest) 9) as [L | L]; [assumption |].
  exfalso.
  assert (10 ^ 10 <= 10 ^ Z.of_nat (String.length rest))
    by (apply Z.pow_le_mono_r; lia).
  lia.
Qed.

(** A first digit from 1 to 9 followed by [k] digits reads as a number
    of [k + 1] digits. *)
Lemma Number_of_bounds (c : ascii) (rest : string) :
  in_range "1" "9" c = true -> all_digits rest = true ->
  10 ^ Z.of_nat (String.length rest) <= Number_of (String c rest)
    < 10 ^ Z.of_nat (S (String.length rest)).
Proof.
  intros Hc Hrest.
  destruct (all_digits_uint_of_string rest Hrest) as (l & Hl & Hlen).
  unfold Number_of.
  cbn [DecimalString.NilZero.uint_of_string DecimalString.NilEmpty.uint_of_string].
  rewrite Hl, <- Hlen, Nat2Z.inj_succ, Z.pow_succ_r by lia.
  assert (0 < 10 ^ Z.of_nat (nb_digits l)) by (apply Z.pow_pos_nonneg; lia).
  destruct c as [[] [] [] [] [] [] [] []]; try discriminate Hc;
    cbn [DecimalString.uint_of_char Z.of_uint Pos.of_uint Z.of_N];
    match goal with
    | |- context [Pos.of_uint_acc l ?a] =>
        pose proof (of_uint_acc_bounds l a) as B
    end;
    nia.
Qed.

Lemma re_numeric_bounds (s : string) :
  re_numeric s = true -> 1 <= Number_of s < 10 ^ 20.
Proof.
  destruct s as [| c rest]; [discriminate |].
  unfold re_numeric. intros H.
  apply andb_prop in H. destruct H as [H Hlen].
  apply andb_prop in H. destruct H as [Hc Hrest].
  apply Nat.leb_le in Hlen.
  pose proof (Number_of_bounds c rest Hc Hrest) as [B0 B1].
  assert (0 < 10 ^ Z.of_nat (String.length rest)) by (apply Z.pow_pos_nonneg; lia).
  assert (10 ^ Z.of_nat (S (String.length rest)) <= 10 ^ 20)
    by (apply Z.pow_le_mono_r; lia).
  lia.
Qed.

End Decimal.

(** ** Getters and setters *)

Lemma getter_get (f : field) (d : Z) :
  getter f d = get (offset f) (Z.ones (width f)) d.
Proof. destruct f; reflexivity. Qed.

Lemma setter_Ok (f : field) (v d d' : Z) :
  setter f v d = Ok d' ->
  0 <= v <= limit f /\ d' = set (offset f) (Z.ones (width f)) v d.
Proof.
  destruct f; cbn [setter limit offset width];
    unfold setAccountID, setAccountInstance, setAccountType, setAccountUniverse;
    destruct (Z.ltb_spec v 0); cbn [orb]; try discriminate;
    match goal with |- context [?a >? ?b] => destruct (Z.gtb_spec a b) end;
    try discriminate; intros [= <-]; (split; [lia | reflexivity]).
Qed.

Lemma setter_accepts (f : field) (v d : Z) :
  0 <= v <= limit f ->
  setter f v d = Ok (set (offset f) (Z.ones (width f)) v d).
Proof.
  intros [H0 H1].
  destruct f; cbn [setter limit offset width] in *;
    unfold setAccountID, setAccountInstance, setAccountType, setAccountUniverse;
    destruct (Z.ltb_spec v 0); try lia; cbn [orb];
    match goal with |- context [?a >? ?b] => destruct (Z.gtb_spec a b) end;
    try lia; reflexivity.
Qed.

Lemma limit_fits (f : field) : limit f < 2 ^ width f.
Proof. destruct f; reflexivity. Qed.

(** A successful setter stores the candidate: its getter returns it. *)
Lemma setter_getter (f : field) (v d d' : Z) :
  setter f v d = Ok d' -> getter f d' = v.
Proof.
  intros H. apply setter_Ok in H. destruct H as [Hv ->].
  rewrite getter_get. pose proof (limit_fits f).
  apply get_set_same; destruct f; cbn [offset width] in *; lia.
Qed.

Lemma setter_uint64 (f : field) (v d d' : Z) :
  uint64 d -> setter f v d = Ok d' -> uint64 d'.
Proof.
  intros Hd H. apply setter_Ok in H. destruct H as [_ ->].
  apply set_uint64; try assumption; destruct f; cbn [offset width]; lia.
Qed.

Lemma setter_nonneg (f : field) (v d d' : Z) :
  0 <= d -> setter f v d = Ok d' -> 0 <= d'.
Proof.
  intros Hd H. apply setter_Ok in H. destruct H as [_ ->].
  apply set_nonneg; try assumption; destruct f; cbn [offset width]; lia.
Qed.

(** The fields do not overlap, so a setter is invisible to the getters of
    the other fields. *)
Lemma setter_frame (f g : field) (v d d' : Z) :
  f <> g -> setter f v d = Ok d' -> getter g d' = getter g d.
Proof.
  intros Hfg H. apply setter_Ok in H. destruct H as [_ ->].
  rewrite !getter_get.
  apply get_set_other; destruct f, g; cbn [offset width]; try lia; congruence.
Qed.

(** The instance setter accepts exactly the candidates up to [0xFFFF]. *)
Lemma setAccountInstance_succeeds_iff (v d : Z) :
  succeeds (setAccountInstance v d) <-> 0 <= v <= 0xFFFF.
Proof.
  split.
  - intros [d' H]. apply (setter_Ok AccountInstance) in H. tauto.
  - intros H. eexists. apply (setter_accepts AccountInstance). exact H.
Qed.

(** C1: the instance setter does not accept the whole width of its field.
    Every candidate above [0xFFFF] is rejected, those up to the mask
    [0xFFFFF] = 1048575 included, which the specification has accepted. *)
Theorem setAccountInstance_rejects_upper_range (v d : Z) :
  0xFFFF < v <= 0xFFFFF -> setAccountInstance v d = Throw ErrAccountInstance.
Proof.
  intros [Hlo _]. unfold setAccountInstance.
  destruct (Z.ltb_spec v 0); [lia |].
  destruct (Z.gtb_spec v 0xFFFF); [reflexivity | lia].
Qed.

Lemma setAccountInstance_rejects_upper_range_witness :
  0xFFFF < InstanceFlagClan <= 0xFFFFF
  /\ setAccountInstance InstanceFlagClan 0 = Throw ErrAccountInstance.
Proof.
  assert (H : 0xFFFF < InstanceFlagClan <= 0xFFFFF) by (unfold InstanceFlagClan; lia).
  split; [exact H |].
  apply (setAccountInstance_rejects_upper_range InstanceFlagClan 0 H).
Defined.

(** C6, as the specification states it, fails: the account-number setter
    accepts [0xFFFFFFFF]. *)
Lemma setAccountID_0xFFFFFFFF_accepted :
  setAccountID 0xFFFFFFFF 0 = Ok 4294967295
  /\ ~ (exists e, setAccountID 0xFFFFFFFF 0 = Throw e).
Proof.
  split; [reflexivity |]. intros [e H]. discriminate H.
Qed.

(** C6, amended: the account-number setter accepts both [0xFFFFFFFF] and
    [0xFFFFFFFE], storing them whatever the identifier held, and throws
    exactly for the candidates below 0 or above [0xFFFFFFFF]. *)
Theorem setAccountID_boundary :
  (forall d, exists d',
      setAccountID 0xFFFFFFFF d = Ok d' /\ getAccountID d' = 0xFFFFFFFF)
  /\ (forall d, exists d',
      setAccountID 0xFFFFFFFE d = Ok d' /\ getAccountID d' = 0xFFFFFFFE)
  /\ (forall v d,
      setAccountID v d = Throw ErrAccountID <-> (v < 0 \/ 0xFFFFFFFF < v)).
Proof.
  assert (Hacc : forall v d, 0 <= v <= 0xFFFFFFFF ->
            exists d', setAccountID v d = Ok d' /\ getAccountID d' = v).
  { intros v d Hv. eexists. split.
    - apply (setter_accepts AccountID). exact Hv.
    - apply (setter_getter AccountID v d). apply (setter_accepts AccountID). exact Hv. }
  split; [| split].
  - intros d. apply Hacc. lia.
  - intros d. apply Hacc. lia.
  - intros v d. split.
    + intros H. destruct (Z.lt_ge_cases v 0) as [L | L]; [left; exact L |].
      destruct (Z.lt_ge_cases 0xFFFFFFFF v) as [U | U]; [right; exact U |].
      change (setter AccountID v d = Throw ErrAccountID) in H.
      rewrite (setter_accepts AccountID v d) in H by (cbn [limit]; lia).
      discriminate H.
    + intros H. unfold setAccountID.
      destruct (Z.ltb_spec v 0); [reflexivity |].
      destruct (Z.gtb_spec v 0xFFFFFFFF); [reflexivity | lia].
Qed.

(** C7: a successful setter leaves the other three getters as they were,
    from every state of the identifier. *)
Theorem field_isolation (f g : field) (v d d' : Z) :
  f <> g -> setter f v d = Ok d' -> getter g d' = getter g d.
Proof.
  intros Hfg H.
  (* what the setter stored *)
  apply setter_Ok in H. destruct H as [_ Hd']. subst d'.
  (* the two fields as bit ranges *)
  rewrite (getter_get g), (getter_get g d).
  assert (Hdisjoint : offset f + width f <= offset g
                      \/ offset g + width g <= offset f)
    by (destruct f, g; cbn [offset width]; solve [lia | congruence]).
  apply get_set_other; try assumption; destruct f, g; cbn [offset width]; lia.
Qed.

Lemma field_isolation_witness :
  setter AccountInstance 4 76561197960287930 = Ok 76561210845189818
  /\ getter AccountID 76561210845189818 = getter AccountID 76561197960287930
  /\ getter AccountType 76561210845189818 = getter AccountType 76561197960287930
  /\ getter AccountUniverse 76561210845189818
     = getter AccountUniverse 76561197960287930.
Proof.
  assert (H : setter AccountInstance 4 76561197960287930 = Ok 76561210845189818)
    by reflexivity.
  split; [exact H |].
  split; [| split].
  - apply (field_isolation AccountInstance AccountID 4 _ _); [discriminate | exact H].
  - apply (field_isolation AccountInstance AccountType 4 _ _); [discriminate | exact H].
  - apply (field_isolation AccountInstance AccountUniverse 4 _ _); [discriminate | exact H].
Defined.

(** ** The constructor *)

Lemma bind_Ok {A B : Type} (m : result A) (k : A -> result B) (b : B) :
  bind m k = Ok b -> exists a, m = Ok a /\ k a = Ok b.
Proof. destruct m as [a | e]; [eauto | discriminate]. Qed.

(** What a match of the bracketed expression says about its groups and
    about the string. *)
Lemma match_steam3_inv (s : string) (g : steam3_groups) :
  match_steam3 s = Some g ->
  exists t u tail,
    s = String "[" (String t (String ":" (String u (String ":" tail))))
    /\ s3_type g = String t EmptyString /\ is_type_char t = true
    /\ s3_universe g = String u EmptyString /\ in_range "0" "4" u = true
    /\ re_id (s3_id g) = true.
Proof.
  destruct s as [| b [| t [| c1 [| u [| c2 rest]]]]]; try discriminate.
  unfold match_steam3. destruct (span_digits rest) as [id after_id].
  destruct (Ascii.eqb_spec b "["); [subst b | discriminate].
  destruct (is_type_char t) eqn:Ht; [| discriminate].
  destruct (Ascii.eqb_spec c1 ":"); [subst c1 | discriminate].
  destruct (in_range "0" "4" u) eqn:Hu; [| discriminate].
  destruct (Ascii.eqb_spec c2 ":"); [subst c2 | discriminate].
  destruct (re_id id) eqn:Hid; [| discriminate].
  cbn [andb]. intros H. exists t, u, rest.
  destruct after_id as [| x [| y tail]]; try discriminate.
  - destruct (Ascii.eqb x "]"); [| discriminate].
    injection H as <-. cbn. repeat split; assumption.
  - destruct (span_digits (String y tail)) as [inst close].
    destruct (Ascii.eqb x ":" && negb (String.eqb inst EmptyString)
              && String.eqb close "]"); [| discriminate].
    injection H as <-. cbn. repeat split; assumption.
Qed.

(** A bracketed string is not a legacy string. *)
Lemma match_steam3_not_steam2 (s : string) (g : steam3_groups) :
  match_steam3 s = Some g -> match_steam2 s = None.
Proof.
  intros H. apply match_steam3_inv in H.
  destruct H as (t & u & tail & -> & _). reflexivity.
Qed.

Lemma Number_of_universe (u : ascii) :
  in_range "0" "4" u = true -> 0 <= Number_of (String u EmptyString) <= 4.
Proof.
  destruct u as [[] [] [] [] [] [] [] []]; intros H; try discriminate H;
    vm_compute; split; discriminate.
Qed.

(** C2: a bracketed string whose type character is [c] or [L] is never
    constructed.  The instance is forced to [InstanceFlagClan] = 0x80000,
    which the instance setter, bounded by [0xFFFF], rejects; the account
    number is checked before that. *)
Theorem constructor_clan_chat_throws (s : string) (g : steam3_groups) :
  match_steam3 s = Some g ->
  s3_type g = "c" \/ s3_type g = "L" ->
  constructor (Some (VString s)) =
    if Number_of (s3_id g) >=? 4294967295 then Throw ErrExceedsUInt32
    else Throw ErrAccountInstance.
Proof.
  intros Hm Ht.
  unfold constructor. cbn [toString].
  rewrite (match_steam3_not_steam2 s g Hm), Hm.
  apply match_steam3_inv in Hm.
  destruct Hm as (t & u & tail & _ & _ & _ & Hu & Hur & _).
  unfold fromSteam3.
  destruct (Number_of (s3_id g) >=? 4294967295); [reflexivity |].
  rewrite Hu.
  pose proof (Number_of_universe u Hur) as Hrange.
  assert (Hset : forall d, setAccountUniverse (Number_of (String u EmptyString)) d
                           = Ok (set 56 255 (Number_of (String u EmptyString)) d)).
  { intros d. apply (setter_accepts AccountUniverse). cbn [limit]. lia. }
  destruct Ht as [-> | ->]; cbn; rewrite Hset; reflexivity.
Qed.

Lemma constructor_clan_chat_throws_witness :
  constructor (Some (VString "[c:1:4]")) = Throw ErrAccountInstance
  /\ constructor (Some (VString "[L:1:4:7]")) = Throw ErrAccountInstance.
Proof.
  split.
  - apply (constructor_clan_chat_throws "[c:1:4]"
             {| s3_type := "c"; s3_universe := "1"; s3_id := "4";
                s3_instance := None |}); [reflexivity | left; reflexivity].
  - apply (constructor_clan_chat_throws "[L:1:4:7]"
             {| s3_type := "L"; s3_universe := "1"; s3_id := "4";
                s3_instance := Some "7" |}); [reflexivity | right; reflexivity].
Defined.

(** C3, as the specification states it, fails: [[U:1:1]] has no instance
    segment, so type [U] gets the Desktop instance, and [isValid] wants
    instance 0 of an Individual. *)
Lemma isValid_U_1_1_false :
  exists d, constructor (Some (VString "[U:1:1]")) = Ok d
            /\ getAccountInstance d = DesktopInstance
            /\ isValid d = false.
Proof. exists 76561197960265729. repeat split. Qed.

(** C3, amended: [isValid] is false for the identifier constructed with no
    input and false for [[U:1:1]] (Individual, Public, account 1, instance
    1); it is true for [[U:1:1:0]], the same identifier with instance 0. *)
Theorem isValid_empty_and_individual :
  (exists d, constructor None = Ok d /\ isValid d = false)
  /\ (exists d, constructor (Some (VString "[U:1:1]")) = Ok d
                /\ getAccountType d = TypeIndividual
                /\ getAccountUniverse d = UniversePublic
                /\ getAccountID d = 1
                /\ getAccountInstance d = DesktopInstance
                /\ isValid d = false)
  /\ (exists d, constructor (Some (VString "[U:1:1:0]")) = Ok d
                /\ getAccountType d = TypeIndividual
                /\ getAccountUniverse d = UniversePublic
                /\ getAccountID d = 1
                /\ getAccountInstance d = AllInstances
                /\ isValid d = true).
Proof.
  split; [| split].
  - exists 0. split; reflexivity.
  - exists 76561197960265729. repeat split.
  - exists 76561193665298433. repeat split.
Qed.

(** Why: whatever the rest of an Individual identifier, [isValid] is
    false as soon as its instance is not zero, and the legacy grammar and
    the bracketed type [U] without an instance segment both store the
    Desktop instance. *)
Lemma isValid_individual_instance (d : Z) :
  getAccountType d = TypeIndividual -> getAccountInstance d <> 0 ->
  isValid d = false.
Proof.
  intros Ht Hi. unfold isValid. rewrite Ht.
  destruct (Z.eqb_spec (getAccountInstance d) 0) as [E | _]; [contradiction |].
  cbn. rewrite orb_true_r. destruct (_ || _); reflexivity.
Qed.

(** C9: the plain numeric string of the documentation example and its two
    renders. *)
Theorem numeric_example_renders :
  exists d, constructor (Some (VString "76561197960287930")) = Ok d
            /\ renderSteam2 d = "STEAM_1:0:11101"
            /\ renderSteam3 d = "[U:1:22202]".
Proof. exists 76561197960287930. repeat split. Qed.

(** C10: zero is not numeric.  The constructor throws the invalid-identifier
    error on ["0"] and on 0, [setFromUInt64] throws the not-numeric error on
    both from every state, and the decimal render of the empty identifier,
    which is ["0"], cannot be constructed from. *)
Theorem zero_is_rejected :
  constructor (Some (VString "0")) = Throw ErrInvalid
  /\ constructor (Some (VNumber 0)) = Throw ErrInvalid
  /\ constructor (Some (VBigInt 0)) = Throw ErrInvalid
  /\ (forall d, setFromUInt64 (VNumber 0) d = Throw ErrNotNumeric)
  /\ (forall d, setFromUInt64 (VBigInt 0) d = Throw ErrNotNumeric)
  /\ (forall d, setFromUInt64 (VString "0") d = Throw ErrNotNumeric)
  /\ (exists empty, constructor None = Ok empty
        /\ empty = 0
        /\ convertToUInt64 empty = "0"
        /\ constructor (Some (VString (convertToUInt64 empty))) = Throw ErrInvalid).
Proof.
  repeat split.
  exists 0. repeat split.
Qed.

(** ** The range of the packed value *)

Lemma fromSteam2_uint64 (g : steam2_groups) (d0 d : Z) :
  uint64 d0 -> fromSteam2 g d0 = Ok d -> uint64 d.
Proof.
  intros H0. unfold fromSteam2.
  destruct (Number_of (s2_id g) >=? 4294967295); [discriminate |].
  intros H.
  apply bind_Ok in H. destruct H as (d1 & H1 & H).
  apply bind_Ok in H. destruct H as (d2 & H2 & H).
  apply bind_Ok in H. destruct H as (d3 & H3 & H).
  apply (setter_uint64 AccountUniverse) in H1; [| assumption].
  apply (setter_uint64 AccountInstance) in H2; [| assumption].
  apply (setter_uint64 AccountType) in H3; [| assumption].
  apply (setter_uint64 AccountID) in H; assumption.
Qed.

Lemma fromSteam3_uint64 (g : steam3_groups) (d0 d : Z) :
  uint64 d0 -> fromSteam3 g d0 = Ok d -> uint64 d.
Proof.
  intros H0. unfold fromSteam3.
  destruct (Number_of (s3_id g) >=? 4294967295); [discriminate |].
  intros H.
  apply bind_Ok in H. destruct H as ([i d1] & H1 & H).
  assert (uint64 d1) as Hd1.
  { destruct (String.eqb _ "c"); [injection H1 as _ <-; assumption |].
    destruct (String.eqb _ "L"); [injection H1 as _ <-; assumption |].
    apply bind_Ok in H1. destruct H1 as (d' & H1 & E).
    injection E as _ <-.
    apply (setter_uint64 AccountType) in H1; assumption. }
  apply bind_Ok in H. destruct H as (d2 & H2 & H).
  apply bind_Ok in H. destruct H as (d3 & H3 & H).
  apply (setter_uint64 AccountUniverse) in H2; [| assumption].
  apply (setter_uint64 AccountInstance) in H3; [| assumption].
  apply (setter_uint64 AccountID) in H; assumption.
Qed.

Lemma uint64_0 : uint64 0.
Proof. unfold uint64. lia. Qed.

Lemma isNumeric_positive (v : value) : isNumeric v = true -> 0 < BigInt v.
Proof.
  destruct v as [n | n | s]; cbn [isNumeric BigInt]; intros H.
  - apply Z.gtb_lt in H. exact H.
  - apply Z.gtb_lt in H. exact H.
  - apply re_numeric_bounds in H. lia.
Qed.

(** A string that starts with a digit matches neither string grammar. *)
Lemma digit_first_no_grammar (c : ascii) (rest : string) :
  is_digit c = true ->
  match_steam2 (String c rest) = None /\ match_steam3 (String c rest) = None.
Proof.
  intros H.
  destruct c as [[] [] [] [] [] [] [] []]; try discriminate H;
    (split; [reflexivity |]);
    destruct rest as [| t [| c1 [| u [| c2 tail]]]]; try reflexivity;
    unfold match_steam3; destruct (span_digits tail); reflexivity.
Qed.

Lemma in_range_1_9_is_digit (c : ascii) :
  in_range "1" "9" c = true -> is_digit c = true.
Proof.
  destruct c as [[] [] [] [] [] [] [] []]; intros H;
    try discriminate H; reflexivity.
Qed.

(** The plain-numeric path: a string of the numeric expression is adopted
    as it reads. *)
Lemma constructor_numeric_string (s : string) :
  re_numeric s = true -> constructor (Some (VString s)) = Ok (Number_of s).
Proof.
  intros H. destruct s as [| c rest]; [discriminate |].
  assert (Hd : is_digit c = true).
  { unfold re_numeric in H.
    apply andb_prop in H. destruct H as [H _].
    apply andb_prop in H. destruct H as [H _].
    apply in_range_1_9_is_digit. exact H. }
  destruct (digit_first_no_grammar c rest Hd) as [E2 E3].
  unfold constructor. cbn [toString]. rewrite E2, E3.
  cbn [isNumeric]. rewrite H. reflexivity.
Qed.

(** C5, as the specification states it, fails: a string of the numeric
    expression can read as 2^64, and the constructor stores it. *)
Lemma numeric_string_exceeds_uint64 :
  re_numeric "18446744073709551616" = true
  /\ constructor (Some (VString "18446744073709551616")) = Ok (2 ^ 64)
  /\ ~ uint64 (2 ^ 64).
Proof.
  split; [reflexivity | split; [reflexivity |]].
  unfold uint64. lia.
Qed.

(** C5, amended.  The packed value is never negative after a successful
    construction, and positive after [setFromUInt64].  It fits 64 bits
    after a construction from the legacy or the bracketed grammar, and
    every field setter keeps a non-negative value non-negative and a
    64-bit value 64-bit.  The plain-numeric path stores its input as it
    reads: for a string of the numeric expression a value from 1 to
    10^20 - 1, which need not fit 64 bits. *)
Theorem packed_value_range :
  (forall v d, constructor v = Ok d -> 0 <= d)
  /\ (forall s d,
        match_steam2 s <> None \/ match_steam3 s <> None ->
        constructor (Some (VString s)) = Ok d -> uint64 d)
  /\ (forall f v d d',
        setter f v d = Ok d' -> (0 <= d -> 0 <= d') /\ (uint64 d -> uint64 d'))
  /\ (forall v d0 d, setFromUInt64 v d0 = Ok d -> d = BigInt v /\ 0 < d)
  /\ (forall s,
        re_numeric s = true ->
        constructor (Some (VString s)) = Ok (Number_of s)
        /\ 1 <= Number_of s < 10 ^ 20).
Proof.
  split; [| split; [| split; [| split]]].
  - intros [v |] d; cbn [constructor].
    + destruct (match_steam2 (toString v)) as [g |].
      { intros H. apply fromSteam2_uint64 in H; [apply H | apply uint64_0]. }
      destruct (match_steam3 (toString v)) as [g |].
      { intros H. apply fromSteam3_uint64 in H; [apply H | apply uint64_0]. }
      destruct (isNumeric v) eqn:E; [| discriminate].
      intros [= <-]. apply isNumeric_positive in E. lia.
    + intros [= <-]. lia.
  - intros s d Hm. cbn [constructor toString].
    destruct (match_steam2 s) as [g |].
    { intros H. apply fromSteam2_uint64 in H; [apply H | apply uint64_0]. }
    destruct (match_steam3 s) as [g |].
    { intros H. apply fromSteam3_uint64 in H; [apply H | apply uint64_0]. }
    destruct Hm as [Hm | Hm]; contradiction Hm; reflexivity.
  - intros f v d d' H. split; intros Hd.
    + apply (setter_nonneg f v d d' Hd H).
    + apply (setter_uint64 f v d d' Hd H).
  - intros v d0 d. unfold setFromUInt64.
    destruct (isNumeric v) eqn:E; [| discriminate].
    intros [= <-]. split; [reflexivity | apply isNumeric_positive, E].
  - intros s H. split.
    + apply constructor_numeric_string, H.
    + apply re_numeric_bounds, H.
Qed.

Lemma packed_value_range_witness :
  uint64 76561197960265729
  /\ (constructor (Some (VString "99999999999999999999")) = Ok (Number_of "99999999999999999999")
      /\ 1 <= Number_of "99999999999999999999" < 10 ^ 20)
  /\ uint64 76561197960287930.
Proof.
  destruct packed_value_range as (_ & Hgrammar & Hset & _ & Hnum).
  split; [| split].
  - apply (Hgrammar "[U:1:1]" 76561197960265729).
    + right. discriminate.
    + reflexivity.
  - apply (Hnum "99999999999999999999"). reflexivity.
  - apply (Hset AccountInstance 1 76561193665320634 76561197960287930).
    + reflexivity.
    + unfold uint64. lia.
Defined.

(** ** The legacy grammar *)

Lemma ToInt32_small (x : Z) : - 2 ^ 31 <= x < 2 ^ 31 -> ToInt32 x = x.
Proof. intros H. unfold ToInt32. rewrite Z.mod_small; lia. Qed.

Lemma ToInt32_wrap (x : Z) : 2 ^ 31 <= x < 2 ^ 32 -> ToInt32 x = x - 2 ^ 32.
Proof.
  intros H. unfold ToInt32.
  replace (x + 2 ^ 31) with (x - 2 ^ 31 + 1 * 2 ^ 32) by lia.
  rewrite Z.mod_add, Z.mod_small; lia.
Qed.

Lemma land_1_mod (a : Z) : Z.land a 1 = a mod 2.
Proof. apply (Z.land_ones a 1). lia. Qed.

Lemma land_1_cases (a : Z) : Z.land a 1 = 0 \/ Z.land a 1 = 1.
Proof. rewrite land_1_mod. pose proof (Z.mod_pos_bound a 2). lia. Qed.

Lemma shiftr_1_bounds (a k : Z) :
  0 < k -> 0 <= a < 2 ^ k -> 0 <= Z.shiftr a 1 < 2 ^ (k - 1)
  /\ a = 2 * Z.shiftr a 1 + Z.land a 1.
Proof.
  intros Hk Ha.
  rewrite land_1_mod, Z.shiftr_div_pow2 by lia. change (2 ^ 1) with 2.
  pose proof (Z.div_mod a 2).
  pose proof (Z.mod_pos_bound a 2).
  replace (2 ^ k) with (2 * 2 ^ (k - 1)) in Ha
    by (rewrite <- Z.pow_succ_r by lia; f_equal; lia).
  lia.
Qed.

(** Putting the two halves of an account number back together. *)
Lemma lor_halves (a : Z) : Z.lor (Z.shiftl (Z.shiftr a 1) 1) (Z.land a 1) = a.
Proof.
  apply Z.bits_inj'. intros n Hn.
  rewrite Z.lor_spec, Z.shiftl_spec, Z.land_spec by assumption.
  destruct (Z.eq_dec n 0) as [-> | Hne].
  - rewrite Z.testbit_neg_r by lia. cbn [orb].
    change (Z.testbit 1 0) with true. apply andb_true_r.
  - rewrite Z.shiftr_spec by lia.
    replace (n - 1 + 1) with n by lia.
    change 1 with (Z.ones 1) at 1.
    rewrite Z.testbit_ones_nonneg by lia.
    destruct (Z.ltb_spec n 1); [lia |].
    rewrite andb_false_r, orb_false_r. reflexivity.
Qed.

(** The number arithmetic of the legacy branch,
    [(accountID << 1) | authServer], is exact below 2^31 ... *)
Lemma recombine_exact (a : Z) :
  0 <= a < 2 ^ 31 ->
  number_or (number_shl (Z.shiftr a 1) 1) (Z.land a 1) = a.
Proof.
  intros Ha.
  destruct (shiftr_1_bounds a 31 ltac:(lia) Ha) as [Hh Hsum].
  change (2 ^ (31 - 1)) with (2 ^ 30) in Hh.
  unfold number_or, number_shl. change (1 mod 32) with 1.
  rewrite (ToInt32_small (Z.shiftr a 1)) by lia.
  assert (Hshl : Z.shiftl (Z.shiftr a 1) 1 = 2 * Z.shiftr a 1)
    by (rewrite Z.shiftl_mul_pow2 by lia; change (2 ^ 1) with 2; lia).
  rewrite (ToInt32_small (Z.shiftl (Z.shiftr a 1) 1)) by (rewrite Hshl; lia).
  rewrite (ToInt32_small (Z.shiftl (Z.shiftr a 1) 1)) by (rewrite Hshl; lia).
  rewrite (ToInt32_small (Z.land a 1)) by (destruct (land_1_cases a); lia).
  apply lor_halves.
Qed.

(** ... and negative from 2^31 on: the shift runs into the sign bit. *)
Lemma recombine_overflow (a : Z) :
  2 ^ 31 <= a < 2 ^ 32 ->
  number_or (number_shl (Z.shiftr a 1) 1) (Z.land a 1) < 0.
Proof.
  intros Ha.
  destruct (shiftr_1_bounds a 32 ltac:(lia) ltac:(lia)) as [Hh Hsum].
  change (2 ^ (32 - 1)) with (2 ^ 31) in Hh.
  unfold number_or, number_shl. change (1 mod 32) with 1.
  rewrite (ToInt32_small (Z.shiftr a 1)) by lia.
  assert (Hshl : Z.shiftl (Z.shiftr a 1) 1 = 2 * Z.shiftr a 1)
    by (rewrite Z.shiftl_mul_pow2 by lia; change (2 ^ 1) with 2; lia).
  assert (Hb : Z.land a 1 = 0 \/ Z.land a 1 = 1) by apply land_1_cases.
  rewrite (ToInt32_wrap (Z.shiftl (Z.shiftr a 1) 1)) by (rewrite Hshl; lia).
  rewrite (ToInt32_small (Z.shiftl (Z.shiftr a 1) 1 - 2 ^ 32)) by (rewrite Hshl; lia).
  apply Z.lor_neg. left. rewrite Hshl. lia.
Qed.

(** The legacy string of a universe from 0 to 4 and an account number
    below 2^32 matches the legacy expression, with the groups it was
    written from. *)
Lemma match_legacy_string (u a : Z) :
  0 <= u <= 4 -> 0 <= a < 2 ^ 32 ->
  match_steam2 (legacy_string u a) =
    Some {| s2_universe := String_of u;
            s2_authServer := String_of (Z.land a 1);
            s2_id := String_of (Z.shiftr a 1) |}.
Proof.
  intros Hu Ha.
  destruct (shiftr_1_bounds a 32 ltac:(lia) Ha) as [Hh _].
  assert (Hid : re_id (String_of (Z.shiftr a 1)) = true)
    by (apply re_id_String_of; change (2 ^ (32 - 1)) with 2147483648 in Hh; lia).
  unfold legacy_string.
  generalize dependent (String_of (Z.shiftr a 1)). intros id Hid.
  assert (Hu' : u = 0 \/ u = 1 \/ u = 2 \/ u = 3 \/ u = 4) by lia.
  destruct (land_1_cases a) as [-> | ->];
    destruct Hu' as [-> | [-> | [-> | [-> | ->]]]];
    cbn; rewrite Hid; reflexivity.
Qed.

(** The legacy branch on such a string: the three groups read back as
    the numbers they were printed from, and the four setters run. *)
Lemma constructor_legacy_string (u a : Z) :
  1 <= u <= 4 -> 0 <= a < 2 ^ 32 ->
  constructor (Some (VString (legacy_string u a))) =
    (d1 <- setter AccountUniverse u 0 ;;
     d2 <- setter AccountInstance DesktopInstance d1 ;;
     d3 <- setter AccountType TypeIndividual d2 ;;
     setter AccountID
       (number_or (number_shl (Z.shiftr a 1) 1) (Z.land a 1)) d3).
Proof.
  intros Hu Ha.
  destruct (shiftr_1_bounds a 32 ltac:(lia) Ha) as [Hh _].
  change (2 ^ (32 - 1)) with 2147483648 in Hh.
  unfold constructor. cbn [toString].
  rewrite match_legacy_string by lia.
  unfold fromSteam2. cbn [s2_id s2_universe s2_authServer].
  rewrite !Number_of_String_of by (destruct (land_1_cases a); lia).
  destruct (Z.geb_spec (Z.shiftr a 1) 4294967295) as [G | _]; [lia |].
  destruct (Z.eqb_spec u UniverseInvalid) as [E | _];
    [unfold UniverseInvalid in E; lia |].
  reflexivity.
Qed.

(** The fields of an identifier packed by the four setters in the order
    of the constructor. *)
Lemma packed_fields (u i t a d1 d2 d3 d : Z) :
  setter AccountUniverse u 0 = Ok d1 ->
  setter AccountInstance i d1 = Ok d2 ->
  setter AccountType t d2 = Ok d3 ->
  setter AccountID a d3 = Ok d ->
  getAccountUniverse d = u /\ getAccountInstance d = i
  /\ getAccountType d = t /\ getAccountID d = a.
Proof.
  intros H1 H2 H3 H4. repeat split.
  - change (getter AccountUniverse d = u).
    rewrite (setter_frame AccountID AccountUniverse _ _ _ ltac:(discriminate) H4).
    rewrite (setter_frame AccountType AccountUniverse _ _ _ ltac:(discriminate) H3).
    rewrite (setter_frame AccountInstance AccountUniverse _ _ _ ltac:(discriminate) H2).
    apply (setter_getter _ _ _ _ H1).
  - change (getter AccountInstance d = i).
    rewrite (setter_frame AccountID AccountInstance _ _ _ ltac:(discriminate) H4).
    rewrite (setter_frame AccountType AccountInstance _ _ _ ltac:(discriminate) H3).
    apply (setter_getter _ _ _ _ H2).
  - change (getter AccountType d = t).
    rewrite (setter_frame AccountID AccountType _ _ _ ltac:(discriminate) H4).
    apply (setter_getter _ _ _ _ H3).
  - apply (setter_getter AccountID _ _ _ H4).
Qed.

(** The round trip of the legacy format holds for the account numbers
    below 2^31, zero included. *)
Lemma legacy_roundtrip_lower_half (u a : Z) :
  1 <= u <= 4 -> 0 <= a < 2 ^ 31 ->
  exists d,
    constructor (Some (VString (legacy_string u a))) = Ok d
    /\ getAccountID d = a /\ getAccountUniverse d = u
    /\ renderSteam2 d = legacy_string u a.
Proof.
  intros Hu Ha.
  rewrite constructor_legacy_string by lia.
  rewrite recombine_exact by lia.
  pose proof (setter_accepts AccountUniverse u 0 ltac:(cbn [limit]; lia)) as H1.
  rewrite H1. cbn [bind].
  match type of H1 with _ = Ok ?x => set (d1 := x) in * end.
  pose proof (setter_accepts AccountInstance DesktopInstance d1 ltac:(unfold DesktopInstance, TypeIndividual; cbn [limit]; lia)) as H2.
  rewrite H2. cbn [bind].
  match type of H2 with _ = Ok ?x => set (d2 := x) in * end.
  pose proof (setter_accepts AccountType TypeIndividual d2 ltac:(unfold DesktopInstance, TypeIndividual; cbn [limit]; lia)) as H3.
  rewrite H3. cbn [bind].
  match type of H3 with _ = Ok ?x => set (d3 := x) in * end.
  pose proof (setter_accepts AccountID a d3 ltac:(cbn [limit]; lia)) as H4.
  rewrite H4.
  match type of H4 with _ = Ok ?x => set (d := x) in * end.
  destruct (packed_fields _ _ _ _ _ _ _ _ H1 H2 H3 H4) as (Gu & _ & Gt & Ga).
  exists d. repeat split; try assumption.
  unfold renderSteam2. rewrite Gt, Gu, Ga. reflexivity.
Qed.

(** Past the range of the round trip the shift wraps silently: a half
    account number of 2^31 is stored as account number 0. *)
Lemma legacy_half_2_31_wraps :
  exists d, constructor (Some (VString "STEAM_1:0:2147483648")) = Ok d
            /\ getAccountID d = 0.
Proof. exists 76561197960265728. split; reflexivity. Qed.

(** C4: the round trip of the legacy format stops at 2^31.  For every
    account number from 2^31 to 2^32 - 2 the
    constructor throws the error of the account-number setter: the shift
    of the half account number is a 32-bit signed shift, and the
    recombined number is negative. *)
Theorem legacy_upper_half_throws (u a : Z) :
  1 <= u <= 4 -> 2 ^ 31 <= a <= 2 ^ 32 - 2 ->
  constructor (Some (VString (legacy_string u a))) = Throw ErrAccountID.
Proof.
  intros Hu Ha.
  rewrite constructor_legacy_string by lia.
  pose proof (recombine_overflow a ltac:(lia)) as Hneg.
  rewrite (setter_accepts AccountUniverse u 0) by (cbn [limit]; lia).
  cbn [bind].
  rewrite (setter_accepts AccountInstance DesktopInstance) by (unfold DesktopInstance, TypeIndividual; cbn [limit]; lia).
  cbn [bind].
  rewrite (setter_accepts AccountType TypeIndividual) by (unfold DesktopInstance, TypeIndividual; cbn [limit]; lia).
  cbn [bind setter]. unfold setAccountID.
  destruct (Z.ltb_spec (number_or (number_shl (Z.shiftr a 1) 1) (Z.land a 1)) 0);
    [reflexivity | lia].
Qed.

Lemma legacy_upper_half_throws_witness :
  legacy_string 1 (2 ^ 31) = "STEAM_1:0:1073741824"
  /\ constructor (Some (VString "STEAM_1:0:1073741824")) = Throw ErrAccountID.
Proof.
  split; [reflexivity |].
  apply (legacy_upper_half_throws 1 (2 ^ 31)); lia.
Defined.

(** ** The invite code *)

Lemma append_assoc (a b c : string) : (a ++ b) ++ c = a ++ (b ++ c).
Proof. induction a as [| x a IH]; cbn; [reflexivity | rewrite IH; reflexivity]. Qed.

Lemma append_empty_r (a : string) : a ++ EmptyString = a.
Proof. induction a as [| x a IH]; cbn; [reflexivity | rewrite IH; reflexivity]. Qed.

Lemma string_of_list_ascii_app (l1 l2 : list ascii) :
  string_of_list_ascii (l1 ++ l2)
  = string_of_list_ascii l1 ++ string_of_list_ascii l2.
Proof. induction l1 as [| x l1 IH]; cbn; [reflexivity | rewrite IH; reflexivity]. Qed.

Lemma length_string_of_list_ascii (l : list ascii) :
  String.length (string_of_list_ascii l) = List.length l.
Proof. induction l as [| x l IH]; cbn; [reflexivity | rewrite IH; reflexivity]. Qed.

(** The loop of [replace] on hexadecimal digits: every digit appends its
    image under the table, none is dropped. *)
Lemma replace_loop_hex (d : Hexadecimal.uint) : forall r : string,
  replace_loop r (HexadecimalString.NilEmpty.string_of_uint d)
  = r ++ string_of_list_ascii
           (List.map substitute
              (list_ascii_of_string (HexadecimalString.NilEmpty.string_of_uint d))).
Proof.
  induction d; intros r;
    cbn [HexadecimalString.NilEmpty.string_of_uint replace_loop
         list_ascii_of_string List.map string_of_list_ascii];
    [ symmetry; apply append_empty_r | .. ];
    rewrite IHd, append_assoc; reflexivity.
Qed.

Lemma replace_toString16 (n : Z) :
  replace (toString16 n)
  = string_of_list_ascii
      (List.map substitute (list_ascii_of_string (toString16 n))).
Proof.
  unfold replace, toString16, HexadecimalString.NilZero.string_of_uint.
  destruct (N.to_hex_uint (Z.to_N n)) eqn:E; try reflexivity;
    rewrite replace_loop_hex; reflexivity.
Qed.

Lemma trunc_index_half (n : nat) : trunc_index (Z.of_nat n) 2 = (n / 2)%nat.
Proof.
  unfold trunc_index. rewrite Z.quot_div_nonneg by lia.
  change 2 with (Z.of_nat 2). rewrite <- Nat2Z.inj_div. apply Nat2Z.id.
Qed.

Lemma substring_to_firstn (k : nat) (l : list ascii) :
  substring_to k (string_of_list_ascii l) = string_of_list_ascii (firstn k l).
Proof.
  unfold substring_to. revert k.
  induction l as [| x l IH]; intros [| k]; cbn; try reflexivity.
  rewrite IH. reflexivity.
Qed.

Lemma substring_whole (s : string) : String.substring 0 (String.length s) s = s.
Proof. induction s as [| x s IH]; cbn; [reflexivity | rewrite IH; reflexivity]. Qed.

Lemma substring_from_skipn (k : nat) (l : list ascii) :
  substring_from k (string_of_list_ascii l) = string_of_list_ascii (skipn k l).
Proof.
  unfold substring_from. revert k.
  induction l as [| x l IH]; intros [| k]; try reflexivity.
  - rewrite Nat.sub_0_r. apply substring_whole.
  - cbn [string_of_list_ascii String.length skipn Nat.sub String.substring].
    apply IH.
Qed.

(** The two substrings and the hyphen of the source are the hyphenation
    of the specification. *)
Lemma hyphen_code (l : list ascii) :
  (let code := string_of_list_ascii l in
   let length := Z.of_nat (String.length code) in
   if length >? 3
   then substring_to (trunc_index length 2) code ++ "-"
          ++ substring_from (trunc_index length 2) code
   else code)
  = string_of_list_ascii (hyphenate l).
Proof.
  cbv zeta. unfold hyphenate.
  rewrite length_string_of_list_ascii, trunc_index_half.
  destruct (Z.gtb_spec (Z.of_nat (List.length l)) 3) as [G | G];
    destruct (Nat.ltb_spec 3 (List.length l)) as [L | L]; try lia;
    [| reflexivity].
  rewrite substring_to_firstn, substring_from_skipn, string_of_list_ascii_app.
  reflexivity.
Qed.

Lemma renderSteamInvite_individual (d : Z) :
  getAccountType d = TypeInvalid \/ getAccountType d = TypeIndividual ->
  renderSteamInvite d = Ok (invite_code (getAccountID d)).
Proof.
  intros Ht. unfold renderSteamInvite, invite_code.
  replace ((getAccountType d =? TypeInvalid) || (getAccountType d =? TypeIndividual))
    with true by (destruct Ht as [-> | ->]; reflexivity).
  rewrite replace_toString16.
  rewrite <- hyphen_code. cbv zeta.
  destruct (_ >? 3); reflexivity.
Qed.

(** Account number 287930, five hexadecimal digits, [464ba]: the hyphen
    comes after the second. *)
Lemma invite_code_287930 : invite_code 287930 = "gj-gqp".
Proof. reflexivity. Qed.

(** C8: for an identifier of type Invalid or Individual the invite code is
    the hexadecimal digits of the account number, each one replaced through
    the table, with one hyphen after position [floor (length / 2)] when
    there are more than 3 of them and none otherwise; account number 78
    gives [gv]. *)
Theorem renderSteamInvite_spec (d : Z) :
  getAccountType d = TypeInvalid \/ getAccountType d = TypeIndividual ->
  renderSteamInvite d = Ok (invite_code (getAccountID d))
  /\ (getAccountID d = 78 -> renderSteamInvite d = Ok "gv").
Proof.
  intros Ht. rewrite (renderSteamInvite_individual d Ht).
  split; [reflexivity |]. intros ->. reflexivity.
Qed.

Lemma renderSteamInvite_spec_witness :
  renderSteamInvite 76561197960265806 = Ok "gv"
  /\ renderSteamInvite 76561197960287930 = Ok "hj-qp"
  /\ invite_code 22202 = "hj-qp".
Proof.
  assert (T : forall d, getAccountType d = 1 ->
                getAccountType d = TypeInvalid \/ getAccountType d = TypeIndividual)
    by (intros d H; right; exact H).
  split; [| split].
  - apply (renderSteamInvite_spec 76561197960265806 (T 76561197960265806 eq_refl)).
    reflexivity.
  - apply (renderSteamInvite_spec 76561197960287930 (T 76561197960287930 eq_refl)).
  - reflexivity.
Defined.

(** ** More on the bit fields *)

(** X1: every getter returns a value of the width of its field, whatever
    the packed value is, negative or beyond 64 bits included. *)
Theorem getter_range (f : field) (d : Z) : 0 <= getter f d < 2 ^ width f.
Proof.
  rewrite getter_get. unfold get.
  rewrite Z.land_ones by (destruct f; cbn [width]; lia).
  apply Z.mod_pos_bound. destruct f; reflexivity.
Qed.

(** X2: a successful setter stores its candidate exactly: the getter of
    the same field returns it afterwards, whatever the identifier held. *)
Theorem setter_then_getter (f : field) (v d d' : Z) :
  setter f v d = Ok d' -> getter f d' = v.
Proof.
  intros H. apply setter_Ok in H. destruct H as [[Hlo Hhi] Hd']. subst d'.
  rewrite getter_get.
  assert (Hfit : v < 2 ^ width f) by (pose proof (limit_fits f); lia).
  apply get_set_same; [destruct f; cbn [offset]; lia
                      | destruct f; cbn [width]; lia
                      | lia].
Qed.

Lemma setter_then_getter_witness :
  setter AccountType 7 76561197960287930 = Ok 103582795724510906
  /\ getter AccountType 103582795724510906 = 7.
Proof.
  assert (H : setter AccountType 7 76561197960287930 = Ok 103582795724510906)
    by reflexivity.
  split; [exact H | exact (setter_then_getter AccountType 7 _ _ H)].
Defined.

Lemma set_set_same (off w v1 v2 d : Z) :
  0 <= off -> 0 <= w ->
  set off (Z.ones w) v2 (set off (Z.ones w) v1 d) = set off (Z.ones w) v2 d.
Proof.
  intros Ho Hw. apply Z.bits_inj'. intros n _.
  rewrite !testbit_set by assumption.
  destruct ((off <=? n) && (n <? off + w)); reflexivity.
Qed.

Lemma set_set_comm (off w off' w' v v' d : Z) :
  0 <= off -> 0 <= w -> 0 <= off' -> 0 <= w' ->
  off + w <= off' \/ off' + w' <= off ->
  set off (Z.ones w) v (set off' (Z.ones w') v' d)
  = set off' (Z.ones w') v' (set off (Z.ones w) v d).
Proof.
  intros Ho Hw Ho' Hw' Hdisj. apply Z.bits_inj'. intros n _.
  rewrite !testbit_set by assumption.
  destruct (Z.leb_spec off n), (Z.ltb_spec n (off + w)),
           (Z.leb_spec off' n), (Z.ltb_spec n (off' + w'));
    cbn [andb]; try reflexivity; lia.
Qed.

(** X3: the last write wins.  After a successful setter, the same setter
    with another candidate gives what it would have given on the
    identifier before the first: the value stored first leaves no
    trace. *)
Theorem setter_overwrites (f : field) (v1 v2 d d1 : Z) :
  setter f v1 d = Ok d1 -> setter f v2 d1 = setter f v2 d.
Proof.
  intros H1. apply setter_Ok in H1. destruct H1 as [_ ->].
  destruct (Z.lt_ge_cases v2 0) as [Hneg | Hnn];
    [destruct f; cbn [setter];
     unfold setAccountID, setAccountInstance, setAccountType, setAccountUniverse;
     destruct (Z.ltb_spec v2 0); try lia; reflexivity |].
  destruct (Z.lt_ge_cases (limit f) v2) as [Hbig | Hok];
    [destruct f; cbn [setter limit] in *;
     unfold setAccountID, setAccountInstance, setAccountType, setAccountUniverse;
     destruct (Z.ltb_spec v2 0); try lia;
     match goal with |- context [?a >? ?b] => destruct (Z.gtb_spec a b) end;
     try lia; reflexivity |].
  rewrite !setter_accepts by lia.
  f_equal. apply set_set_same; destruct f; cbn [offset width]; lia.
Qed.

Lemma setter_overwrites_witness :
  setter AccountID 5 76561197960287930 = Ok 76561197960265733
  /\ setter AccountID 22202 76561197960265733
     = setter AccountID 22202 76561197960287930.
Proof.
  assert (H : setter AccountID 5 76561197960287930 = Ok 76561197960265733)
    by reflexivity.
  split; [exact H | exact (setter_overwrites AccountID 5 22202 _ _ H)].
Defined.

(** X4: two successful setters of different fields can be run in either
    order: the other order succeeds too and leaves the same packed
    value. *)
Theorem setters_commute (f g : field) (v w d d1 d2 : Z) :
  f <> g ->
  setter f v d = Ok d1 -> setter g w d1 = Ok d2 ->
  exists d1', setter g w d = Ok d1' /\ setter f v d1' = Ok d2.
Proof.
  intros Hfg H1 H2.
  apply setter_Ok in H1. destruct H1 as [Hv ->].
  apply setter_Ok in H2. destruct H2 as [Hw ->].
  exists (set (offset g) (Z.ones (width g)) w d).
  split; [apply setter_accepts; exact Hw |].
  rewrite setter_accepts by exact Hv.
  f_equal.
  apply set_set_comm;
    destruct f, g; cbn [offset width]; try lia; congruence.
Qed.

Lemma setters_commute_witness :
  exists d1', setter AccountUniverse 2 0 = Ok d1'
              /\ setter AccountID 9 d1' = Ok 144115188075855881.
Proof.
  apply (setters_commute AccountID AccountUniverse 9 2 0 9 144115188075855881);
    [discriminate | reflexivity | reflexivity].
Defined.

(** X5: a 64-bit packed value is its four fields put side by side: the
    account number, plus the instance at bit 32, the type at bit 52 and
    the universe at bit 56.  Two 64-bit identifiers with the same four
    getters are therefore the same. *)
Theorem packed_getters (d : Z) :
  uint64 d ->
  d = packed (getAccountUniverse d) (getAccountType d)
             (getAccountInstance d) (getAccountID d).
Proof.
  intros [H0 H1]. unfold packed.
  unfold getAccountUniverse, getAccountType, getAccountInstance, getAccountID, get.
  change 255 with (Z.ones 8). change 15 with (Z.ones 4).
  change 1048575 with (Z.ones 20). change 4294967295 with (Z.ones 32).
  rewrite !Z.land_ones, !Z.shiftr_div_pow2 by lia.
  change (2 ^ 0) with 1. change (2 ^ 8) with 256. change (2 ^ 4) with 16.
  change (2 ^ 20) with 1048576. change (2 ^ 32) with 4294967296.
  change (2 ^ 52) with 4503599627370496.
  change (2 ^ 56) with 72057594037927936.
  change (2 ^ 64) with 18446744073709551616 in H1.
  Z.div_mod_to_equations. lia.
Qed.

Lemma packed_getters_witness :
  76561197960287930 = packed 1 1 1 22202.
Proof.
  apply (packed_getters 76561197960287930). unfold uint64. lia.
Defined.

(** ** More on the plain numeric form *)

Lemma String_of_nonneg_digits (n : Z) :
  0 <= n ->
  exists c rest, String_of n = String c rest
                 /\ is_digit c = true /\ all_digits rest = true.
Proof.
  intros Hn. destruct n as [| p | p]; [| | lia].
  - exists "0"%char, EmptyString. repeat split.
  - destruct (String_of_pos_shape p) as (c & rest & E & _ & Hc & Hrest & _).
    exists c, rest. repeat split; try assumption.
    apply in_range_1_9_is_digit, Hc.
Qed.

(** The number of digits of a positive number, from both sides. *)
Lemma String_of_pos_size (p : positive) :
  exists c rest,
    String_of (Z.pos p) = String c rest
    /\ in_range "1" "9" c = true /\ all_digits rest = true
    /\ 10 ^ Z.of_nat (String.length rest) <= Z.pos p
         < 10 ^ Z.of_nat (S (String.length rest)).
Proof.
  destruct (String_of_pos_shape p) as (c & rest & E & _ & Hc & Hrest & _).
  exists c, rest. repeat split; try assumption;
    pose proof (Number_of_bounds c rest Hc Hrest) as B;
    rewrite <- E, Number_of_String_of in B by lia; apply B.
Qed.

Lemma re_numeric_String_of (d : Z) :
  0 < d < 10 ^ 20 -> re_numeric (String_of d) = true.
Proof.
  intros [H0 H1]. destruct d as [| p | p]; try lia.
  destruct (String_of_pos_size p) as (c & rest & -> & Hc & Hrest & Hlo & _).
  unfold re_numeric. rewrite Hc, Hrest. cbn [andb].
  apply Nat.leb_le.
  destruct (Nat.le_gt_cases (String.length rest) 19) as [L | L]; [assumption |].
  exfalso.
  assert (10 ^ 20 <= 10 ^ Z.of_nat (String.length rest))
    by (apply Z.pow_le_mono_r; lia).
  lia.
Qed.

Lemma re_numeric_String_of_large (d : Z) :
  10 ^ 20 <= d -> re_numeric (String_of d) = false.
Proof.
  intros H. destruct d as [| p | p]; try lia.
  destruct (String_of_pos_size p) as (c & rest & -> & Hc & Hrest & _ & Hhi).
  unfold re_numeric. rewrite Hc, Hrest. cbn [andb].
  apply Nat.leb_gt.
  destruct (Nat.le_gt_cases (String.length rest) 19) as [L | L]; [| lia].
  exfalso.
  assert (10 ^ Z.of_nat (S (String.length rest)) <= 10 ^ 20)
    by (apply Z.pow_le_mono_r; lia).
  lia.
Qed.

(** A string of the numeric expression is the decimal string of the
    number it reads as: it has no leading zero to lose. *)
Lemma String_of_Number_of (s : string) :
  re_numeric s = true -> String_of (Number_of s) = s.
Proof.
  destruct s as [| c rest]; [discriminate |].
  unfold re_numeric. intros H.
  apply andb_prop in H. destruct H as [H _].
  apply andb_prop in H. destruct H as [Hc Hrest].
  destruct (all_digits_uint_of_string rest Hrest) as (l & Hl & _).
  assert (Hparse : exists d, DecimalString.NilEmpty.uint_of_string (String c rest) = Some d
                             /\ Decimal.unorm d = d
                             /\ exists p, Pos.of_uint d = N.pos p).
  { cbn [DecimalString.NilEmpty.uint_of_string]. rewrite Hl.
    destruct c as [[] [] [] [] [] [] [] []]; try discriminate Hc;
      eexists; (split; [reflexivity |]); (split; [reflexivity |]);
      eexists; reflexivity. }
  destruct Hparse as (d & Hd & Hnorm & p & Hp).
  unfold Number_of. cbn [DecimalString.NilZero.uint_of_string]. rewrite Hd.
  unfold Z.of_uint. rewrite Hp. cbn [Z.of_N].
  unfold String_of. cbn [Z.to_int DecimalString.NilZero.string_of_int].
  assert (Hto : Pos.to_uint p = d).
  { change (Pos.to_uint p) with (N.to_uint (N.pos p)).
    rewrite <- Hp, DecimalPos.Unsigned.to_of. exact Hnorm. }
  rewrite Hto.
  apply DecimalString.NilZero.sus. exact Hd.
Qed.

(** A string that starts with a minus sign matches neither string
    grammar. *)
Lemma minus_first_no_grammar (rest : string) :
  match_steam2 (String "-" rest) = None /\ match_steam3 (String "-" rest) = None.
Proof.
  split; [reflexivity |].
  destruct rest as [| t [| c1 [| u [| c2 tail]]]]; try reflexivity.
  unfold match_steam3. destruct (span_digits tail). reflexivity.
Qed.

(** The decimal string of a number matches neither string grammar. *)
Lemma String_of_no_grammar (n : Z) :
  match_steam2 (String_of n) = None /\ match_steam3 (String_of n) = None.
Proof.
  destruct (Z.lt_ge_cases n 0) as [Hneg | Hnn].
  - destruct n as [| p | p]; try lia. apply minus_first_no_grammar.
  - destruct (String_of_nonneg_digits n Hnn) as (c & rest & -> & Hc & _).
    apply digit_first_no_grammar, Hc.
Qed.

(** X6: the plain numeric render reads back.  For every packed value [d]
    from 1 to 10^20 - 1, every non-zero 64-bit value among them,
    constructing from [convertToUInt64] of [d] gives [d] again, and so
    does [setFromUInt64] on any identifier. *)
Theorem numeric_render_reads_back (d : Z) :
  0 < d < 10 ^ 20 ->
  constructor (Some (VString (convertToUInt64 d))) = Ok d
  /\ forall d0, setFromUInt64 (VString (convertToUInt64 d)) d0 = Ok d.
Proof.
  intros Hd. unfold convertToUInt64.
  pose proof (re_numeric_String_of d Hd) as Hre.
  split.
  - rewrite constructor_numeric_string by exact Hre.
    rewrite Number_of_String_of by lia. reflexivity.
  - intros d0. unfold setFromUInt64. cbn [isNumeric BigInt]. rewrite Hre.
    rewrite Number_of_String_of by lia. reflexivity.
Qed.

Lemma numeric_render_reads_back_witness :
  constructor (Some (VString (convertToUInt64 18446744073709551615)))
  = Ok 18446744073709551615.
Proof.
  apply (numeric_render_reads_back 18446744073709551615). lia.
Defined.

(** X7: the other way round, an identifier constructed from a string of
    the numeric expression renders, with [convertToUInt64], as that very
    string. *)
Theorem numeric_string_renders_back (s : string) :
  re_numeric s = true ->
  exists d, constructor (Some (VString s)) = Ok d /\ convertToUInt64 d = s.
Proof.
  intros H. exists (Number_of s). split.
  - apply constructor_numeric_string, H.
  - apply String_of_Number_of, H.
Qed.

Lemma numeric_string_renders_back_witness :
  exists d, constructor (Some (VString "76561197960287930")) = Ok d
            /\ convertToUInt64 d = "76561197960287930".
Proof.
  apply (numeric_string_renders_back "76561197960287930"). reflexivity.
Defined.

(** X8: a number or a bigint is adopted as the packed value exactly when
    it is positive, with no upper bound; zero and the negatives get the
    invalid-identifier error.  The string grammars are tried on its
    decimal string first and never match it. *)
Theorem constructor_of_number (n : Z) :
  constructor (Some (VNumber n)) = (if 0 <? n then Ok n else Throw ErrInvalid)
  /\ constructor (Some (VBigInt n)) = (if 0 <? n then Ok n else Throw ErrInvalid).
Proof.
  destruct (String_of_no_grammar n) as [E2 E3].
  unfold constructor. cbn [toString isNumeric BigInt]. rewrite E2, E3.
  rewrite Z.gtb_ltb. split; reflexivity.
Qed.

(** X9: a packed value of 10^20 or more, which a bigint argument can
    bring in, does not read back: its
    [convertToUInt64] has 21 digits or more, the constructor answers with
    the invalid-identifier error and [setFromUInt64] with the not-numeric
    error. *)
Theorem numeric_render_too_long (d : Z) :
  10 ^ 20 <= d ->
  constructor (Some (VBigInt d)) = Ok d
  /\ constructor (Some (VString (convertToUInt64 d))) = Throw ErrInvalid
  /\ forall d0, setFromUInt64 (VString (convertToUInt64 d)) d0 = Throw ErrNotNumeric.
Proof.
  intros Hd. unfold convertToUInt64.
  pose proof (re_numeric_String_of_large d Hd) as Hre.
  destruct (String_of_no_grammar d) as [E2 E3].
  split; [| split].
  - unfold constructor. cbn [toString isNumeric BigInt]. rewrite E2, E3.
    destruct (Z.gtb_spec d 0); [reflexivity | lia].
  - unfold constructor. cbn [toString isNumeric]. rewrite E2, E3, Hre.
    reflexivity.
  - intros d0. unfold setFromUInt64. cbn [isNumeric]. rewrite Hre. reflexivity.
Qed.

Lemma numeric_render_too_long_witness :
  constructor (Some (VString (convertToUInt64 (10 ^ 20)))) = Throw ErrInvalid.
Proof.
  apply (numeric_render_too_long (10 ^ 20)). lia.
Defined.

(** ** More on the legacy grammar *)

Lemma match_legacy_parts (u b h : Z) :
  0 <= u <= 4 -> 0 <= b <= 1 -> 0 <= h < 10 ^ 10 ->
  match_steam2 (legacy_parts u b h) =
    Some {| s2_universe := String_of u;
            s2_authServer := String_of b;
            s2_id := String_of h |}.
Proof.
  intros Hu Hb Hh.
  pose proof (re_id_String_of h Hh) as Hid.
  unfold legacy_parts.
  generalize dependent (String_of h). intros id Hid.
  assert (Hu' : u = 0 \/ u = 1 \/ u = 2 \/ u = 3 \/ u = 4) by lia.
  assert (Hb' : b = 0 \/ b = 1) by lia.
  destruct Hb' as [-> | ->];
    destruct Hu' as [-> | [-> | [-> | [-> | ->]]]];
    cbn; rewrite Hid; reflexivity.
Qed.

(** The legacy branch on a string written from its groups. *)
Lemma constructor_legacy_parts (u b h : Z) :
  0 <= u <= 4 -> 0 <= b <= 1 -> 0 <= h < 10 ^ 10 ->
  constructor (Some (VString (legacy_parts u b h))) =
    if h >=? 4294967295 then Throw ErrExceedsUInt32
    else
      d1 <- setter AccountUniverse (if u =? 0 then 1 else u) 0 ;;
      d2 <- setter AccountInstance DesktopInstance d1 ;;
      d3 <- setter AccountType TypeIndividual d2 ;;
      setter AccountID (number_or (number_shl h 1) b) d3.
Proof.
  intros Hu Hb Hh.
  unfold constructor. cbn [toString].
  rewrite match_legacy_parts by assumption.
  unfold fromSteam2. cbn [s2_id s2_universe s2_authServer].
  rewrite !Number_of_String_of by lia.
  reflexivity.
Qed.

Lemma lor_double_bit (x b : Z) : 0 <= b <= 1 -> Z.lor (2 * x) b = 2 * x + b.
Proof.
  intros Hb.
  assert (Hs : Z.shiftr (2 * x + b) 1 = x)
    by (rewrite Z.shiftr_div_pow2 by lia; change (2 ^ 1) with 2;
        Z.div_mod_to_equations; lia).
  assert (Hl : Z.land (2 * x + b) 1 = b)
    by (rewrite land_1_mod; Z.div_mod_to_equations; lia).
  pose proof (lor_halves (2 * x + b)) as H.
  rewrite Hs, Hl, Z.shiftl_mul_pow2 in H by lia.
  change (2 ^ 1) with 2 in H. rewrite <- H. f_equal. lia.
Qed.

Lemma number_shl_1 (h : Z) :
  number_shl h 1 = ToInt32 (2 * ToInt32 h).
Proof.
  unfold number_shl. change (1 mod 32) with 1.
  rewrite Z.shiftl_mul_pow2 by lia. change (2 ^ 1) with 2.
  f_equal. lia.
Qed.

(** [(h << 1) | b] on numbers, over the whole range the check before it
    lets through. *)
Lemma recombine_ranges (h b : Z) :
  0 <= b <= 1 ->
  (0 <= h < 2 ^ 30 -> number_or (number_shl h 1) b = 2 * h + b)
  /\ (2 ^ 30 <= h < 2 ^ 31 -> number_or (number_shl h 1) b < 0)
  /\ (2 ^ 31 <= h < 3 * 2 ^ 30 ->
      number_or (number_shl h 1) b = 2 * h - 2 ^ 32 + b)
  /\ (3 * 2 ^ 30 <= h < 2 ^ 32 -> number_or (number_shl h 1) b < 0).
Proof.
  intros Hb. unfold number_or. rewrite number_shl_1.
  rewrite (ToInt32_small b) by lia.
  repeat split; intros Hh.
  - rewrite (ToInt32_small h) by lia.
    rewrite !(ToInt32_small (2 * h)) by lia.
    apply lor_double_bit, Hb.
  - rewrite (ToInt32_small h) by lia.
    rewrite (ToInt32_wrap (2 * h)) by lia.
    rewrite ToInt32_small by lia.
    apply Z.lor_neg. left. lia.
  - rewrite (ToInt32_wrap h) by lia.
    replace (ToInt32 (2 * (h - 2 ^ 32))) with (2 * (h - 2 ^ 31)).
    + rewrite ToInt32_small by lia.
      rewrite lor_double_bit by exact Hb. lia.
    + unfold ToInt32.
      replace (2 * (h - 2 ^ 32) + 2 ^ 31)
        with (2 * (h - 2 ^ 31) + 2 ^ 31 + (-1) * 2 ^ 32) by lia.
      rewrite Z.mod_add, Z.mod_small; lia.
  - rewrite (ToInt32_wrap h) by lia.
    rewrite !(ToInt32_small (2 * (h - 2 ^ 32))) by lia.
    apply Z.lor_neg. left. lia.
Qed.

(** What the four setters of the legacy branch leave when the account
    number they are given is in range. *)
Lemma legacy_chain (u a : Z) :
  0 <= u <= 255 -> 0 <= a <= 0xFFFFFFFF ->
  exists d,
    (d1 <- setter AccountUniverse u 0 ;;
     d2 <- setter AccountInstance DesktopInstance d1 ;;
     d3 <- setter AccountType TypeIndividual d2 ;;
     setter AccountID a d3) = Ok d
    /\ getAccountUniverse d = u /\ getAccountInstance d = DesktopInstance
    /\ getAccountType d = TypeIndividual /\ getAccountID d = a.
Proof.
  intros Hu Ha.
  pose proof (setter_accepts AccountUniverse u 0 ltac:(cbn [limit]; lia)) as H1.
  rewrite H1. cbn [bind].
  match type of H1 with _ = Ok ?x => set (d1 := x) in * end.
  pose proof (setter_accepts AccountInstance DesktopInstance d1
                ltac:(unfold DesktopInstance; cbn [limit]; lia)) as H2.
  rewrite H2. cbn [bind].
  match type of H2 with _ = Ok ?x => set (d2 := x) in * end.
  pose proof (setter_accepts AccountType TypeIndividual d2
                ltac:(unfold TypeIndividual; cbn [limit]; lia)) as H3.
  rewrite H3. cbn [bind].
  match type of H3 with _ = Ok ?x => set (d3 := x) in * end.
  pose proof (setter_accepts AccountID a d3 ltac:(cbn [limit]; lia)) as H4.
  rewrite H4.
  match type of H4 with _ = Ok ?x => set (d := x) in * end.
  exists d. split; [reflexivity |].
  apply (packed_fields _ _ _ _ _ _ _ _ H1 H2 H3 H4).
Qed.

Lemma legacy_chain_negative (u a : Z) :
  0 <= u <= 255 -> a < 0 ->
  (d1 <- setter AccountUniverse u 0 ;;
   d2 <- setter AccountInstance DesktopInstance d1 ;;
   d3 <- setter AccountType TypeIndividual d2 ;;
   setter AccountID a d3) = Throw ErrAccountID.
Proof.
  intros Hu Ha.
  rewrite (setter_accepts AccountUniverse u 0) by (cbn [limit]; lia).
  cbn [bind].
  rewrite (setter_accepts AccountInstance DesktopInstance)
    by (unfold DesktopInstance; cbn [limit]; lia).
  cbn [bind].
  rewrite (setter_accepts AccountType TypeIndividual)
    by (unfold TypeIndividual; cbn [limit]; lia).
  cbn [bind setter]. unfold setAccountID.
  destruct (Z.ltb_spec a 0); [reflexivity | lia].
Qed.

(** A legacy string whose half account number is below 2^30 is
    constructed, with universe 0 read as Public. *)
Lemma legacy_parts_accepted (u b h : Z) :
  0 <= u <= 4 -> 0 <= b <= 1 -> 0 <= h < 2 ^ 30 ->
  exists d,
    constructor (Some (VString (legacy_parts u b h))) = Ok d
    /\ getAccountUniverse d = (if u =? 0 then 1 else u)
    /\ getAccountInstance d = DesktopInstance
    /\ getAccountType d = TypeIndividual
    /\ getAccountID d = 2 * h + b.
Proof.
  intros Hu Hb Hh.
  rewrite constructor_legacy_parts by lia.
  destruct (Z.geb_spec h 4294967295) as [G | _]; [lia |].
  destruct (recombine_ranges h b Hb) as (R & _). rewrite R by exact Hh.
  apply legacy_chain; [destruct (u =? 0); lia | lia].
Qed.

(** X10: the legacy grammar, accepted range.  For a universe digit from 0
    to 4, an auth server bit and a half account number below 2^30, the
    constructor succeeds: the account number is twice the half plus the
    bit, the type Individual, the instance Desktop, the universe the digit
    with 0 read as Public (1); and the legacy render of the result is the
    input string, with that universe. *)
Theorem legacy_constructs (u b h : Z) :
  0 <= u <= 4 -> 0 <= b <= 1 -> 0 <= h < 2 ^ 30 ->
  exists d,
    constructor (Some (VString (legacy_parts u b h))) = Ok d
    /\ getAccountUniverse d = (if u =? 0 then 1 else u)
    /\ getAccountInstance d = DesktopInstance
    /\ getAccountType d = TypeIndividual
    /\ getAccountID d = 2 * h + b
    /\ renderSteam2 d = legacy_parts (if u =? 0 then 1 else u) b h.
Proof.
  intros Hu Hb Hh.
  destruct (legacy_parts_accepted u b h Hu Hb Hh) as (d & E & Gu & Gi & Gt & Ga).
  exists d. repeat split; try assumption.
  unfold renderSteam2. rewrite Gt, Gu, Ga. cbn [Z.eqb orb TypeIndividual TypeInvalid].
  unfold legacy_parts.
  replace (Z.land (2 * h + b) 1) with b
    by (rewrite land_1_mod; Z.div_mod_to_equations; lia).
  replace (Z.shiftr (2 * h + b) 1) with h
    by (rewrite Z.shiftr_div_pow2 by lia; change (2 ^ 1) with 2;
        Z.div_mod_to_equations; lia).
  reflexivity.
Qed.

Lemma legacy_constructs_witness :
  exists d,
    constructor (Some (VString "STEAM_0:0:11101")) = Ok d
    /\ getAccountUniverse d = 1
    /\ getAccountInstance d = DesktopInstance
    /\ getAccountType d = TypeIndividual
    /\ getAccountID d = 22202
    /\ renderSteam2 d = "STEAM_1:0:11101".
Proof.
  apply (legacy_constructs 0 0 11101); lia.
Defined.

(** X11: the legacy grammar, silent wrap.  A half account number from
    2^31 up to 3 * 2^30 - 1 passes the range check of the branch and the
    setter as well: the 32-bit shift drops its top bit, and the identifier
    is constructed with account number [2 * h - 2^32 + b], not the one
    written. *)
Theorem legacy_wraps (u b h : Z) :
  0 <= u <= 4 -> 0 <= b <= 1 -> 2 ^ 31 <= h < 3 * 2 ^ 30 ->
  exists d,
    constructor (Some (VString (legacy_parts u b h))) = Ok d
    /\ getAccountID d = 2 * h - 2 ^ 32 + b
    /\ getAccountID d <> 2 * h + b.
Proof.
  intros Hu Hb Hh.
  rewrite constructor_legacy_parts by lia.
  destruct (Z.geb_spec h 4294967295) as [G | _]; [lia |].
  destruct (recombine_ranges h b Hb) as (_ & _ & R & _). rewrite R by exact Hh.
  destruct (legacy_chain (if u =? 0 then 1 else u) (2 * h - 2 ^ 32 + b))
    as (d & E & _ & _ & _ & Ga); [destruct (u =? 0); lia | lia |].
  exists d. repeat split; [exact E | exact Ga | lia].
Qed.

Lemma legacy_wraps_witness :
  exists d,
    constructor (Some (VString "STEAM_1:1:2147483653")) = Ok d
    /\ getAccountID d = 11
    /\ getAccountID d <> 4294967307.
Proof.
  apply (legacy_wraps 1 1 2147483653); lia.
Defined.

(** X12: the legacy grammar, rejected ranges.  A half account number from
    2^30 to 2^31 - 1 or from 3 * 2^30 to 4294967294 makes the recombined
    number negative, and the constructor throws the error of the
    account-number setter; from 4294967295 on (the expression allows ten
    digits) it throws the 32-bit error of the branch itself. *)
Theorem legacy_rejects (u b h : Z) :
  0 <= u <= 4 -> 0 <= b <= 1 ->
  (2 ^ 30 <= h < 2 ^ 31 \/ 3 * 2 ^ 30 <= h < 4294967295 ->
   constructor (Some (VString (legacy_parts u b h))) = Throw ErrAccountID)
  /\ (4294967295 <= h < 10 ^ 10 ->
      constructor (Some (VString (legacy_parts u b h))) = Throw ErrExceedsUInt32).
Proof.
  intros Hu Hb. split; intros Hh.
  - rewrite constructor_legacy_parts by lia.
    destruct (Z.geb_spec h 4294967295) as [G | _]; [lia |].
    apply legacy_chain_negative; [destruct (u =? 0); lia |].
    destruct (recombine_ranges h b Hb) as (_ & R1 & _ & R2).
    destruct Hh as [Hh | Hh]; [apply R1 | apply R2]; lia.
  - rewrite constructor_legacy_parts by lia.
    destruct (Z.geb_spec h 4294967295) as [_ | G]; [reflexivity | lia].
Qed.

Lemma legacy_rejects_witness :
  constructor (Some (VString "STEAM_1:0:4294967294")) = Throw ErrAccountID
  /\ constructor (Some (VString "STEAM_1:0:4294967295")) = Throw ErrExceedsUInt32.
Proof.
  destruct (legacy_rejects 1 0 4294967294 ltac:(lia) ltac:(lia)) as [A _].
  destruct (legacy_rejects 1 0 4294967295 ltac:(lia) ltac:(lia)) as [_ B].
  split; [apply A; lia | apply B; lia].
Defined.

Lemma get_bounds (off w d : Z) : 0 <= w -> 0 <= get off (Z.ones w) d < 2 ^ w.
Proof.
  intros Hw. unfold get. rewrite Z.land_ones by exact Hw.
  apply Z.mod_pos_bound, Z.pow_pos_nonneg; lia.
Qed.

(** X13: no identifier constructed from a legacy string is valid.  The
    branch stores type Individual with the Desktop instance, and [isValid]
    accepts an Individual with instance 0 only. *)
Theorem legacy_never_valid (s : string) (d : Z) :
  match_steam2 s <> None ->
  constructor (Some (VString s)) = Ok d ->
  getAccountType d = TypeIndividual
  /\ getAccountInstance d = DesktopInstance
  /\ isValid d = false.
Proof.
  intros Hm. unfold constructor. cbn [toString].
  destruct (match_steam2 s) as [g |]; [clear Hm | contradiction Hm; reflexivity].
  unfold fromSteam2.
  destruct (Number_of (s2_id g) >=? 4294967295); [discriminate |].
  intros H.
  apply bind_Ok in H. destruct H as (d1 & H1 & H).
  apply bind_Ok in H. destruct H as (d2 & H2 & H).
  apply bind_Ok in H. destruct H as (d3 & H3 & H4).
  destruct (packed_fields _ _ _ _ _ _ _ _ H1 H2 H3 H4) as (_ & Gi & Gt & _).
  repeat split; try assumption.
  apply isValid_individual_instance; [exact Gt |].
  rewrite Gi. discriminate.
Qed.

Lemma legacy_never_valid_witness :
  getAccountType 76561197960287930 = TypeIndividual
  /\ getAccountInstance 76561197960287930 = DesktopInstance
  /\ isValid 76561197960287930 = false.
Proof.
  apply (legacy_never_valid "STEAM_1:0:11101" 76561197960287930);
    [discriminate | reflexivity].
Defined.

(** X14: reading back the legacy render.  For an identifier of type
    Invalid or Individual with a universe up to 4, constructing from its
    legacy render succeeds when the account number is below 2^31 and gives
    the same account number, the universe with 0 turned into 1, type
    Individual and the Desktop instance, whatever type and instance the
    identifier had; from 2^31 on it throws the account-id error. *)
Theorem renderSteam2_reads_back (d : Z) :
  getAccountType d = TypeInvalid \/ getAccountType d = TypeIndividual ->
  getAccountUniverse d <= 4 ->
  (getAccountID d < 2 ^ 31 ->
   exists d',
     constructor (Some (VString (renderSteam2 d))) = Ok d'
     /\ getAccountID d' = getAccountID d
     /\ getAccountUniverse d'
        = (if getAccountUniverse d =? 0 then 1 else getAccountUniverse d)
     /\ getAccountType d' = TypeIndividual
     /\ getAccountInstance d' = DesktopInstance)
  /\ (2 ^ 31 <= getAccountID d ->
      constructor (Some (VString (renderSteam2 d))) = Throw ErrAccountID).
Proof.
  intros Ht Hu.
  assert (Hrender : renderSteam2 d
                    = legacy_parts (getAccountUniverse d)
                        (Z.land (getAccountID d) 1) (Z.shiftr (getAccountID d) 1)).
  { unfold renderSteam2.
    replace ((getAccountType d =? TypeInvalid) || (getAccountType d =? TypeIndividual))
      with true by (destruct Ht as [-> | ->]; reflexivity).
    reflexivity. }
  rewrite Hrender.
  pose proof (get_bounds 0 32 d ltac:(lia)) as Ba.
  pose proof (get_bounds 56 8 d ltac:(lia)) as Bu.
  change (get 0 (Z.ones 32) d) with (getAccountID d) in Ba.
  change (get 56 (Z.ones 8) d) with (getAccountUniverse d) in Bu.
  set (a := getAccountID d) in *. set (u := getAccountUniverse d) in *.
  destruct (shiftr_1_bounds a 32 ltac:(lia) Ba) as [Hh Hsum].
  change (2 ^ (32 - 1)) with (2 ^ 31) in Hh.
  assert (Hb : 0 <= Z.land a 1 <= 1) by (destruct (land_1_cases a); lia).
  split; intros Ha.
  - destruct (legacy_parts_accepted u (Z.land a 1) (Z.shiftr a 1))
      as (d' & E & Gu & Gi & Gt & Ga); try lia.
    exists d'. repeat split; try assumption. lia.
  - rewrite constructor_legacy_parts by lia.
    destruct (Z.geb_spec (Z.shiftr a 1) 4294967295) as [G | _]; [lia |].
    apply legacy_chain_negative; [destruct (u =? 0); lia |].
    destruct (recombine_ranges (Z.shiftr a 1) (Z.land a 1) Hb) as (_ & R & _).
    apply R. lia.
Qed.

Lemma renderSteam2_reads_back_witness :
  exists d',
    constructor (Some (VString (renderSteam2 22202))) = Ok d'
    /\ getAccountID d' = 22202
    /\ getAccountUniverse d' = 1
    /\ getAccountType d' = TypeIndividual
    /\ getAccountInstance d' = DesktopInstance.
Proof.
  destruct (renderSteam2_reads_back 22202) as [A _];
    [left; reflexivity | discriminate |].
  apply A. reflexivity.
Defined.

(** ** More on the bracketed grammar *)

Lemma span_digits_app (s rest : string) :
  all_digits s = true ->
  (forall c r, rest = String c r -> is_digit c = false) ->
  span_digits (s ++ rest) = (s, rest).
Proof.
  intros Hs Hrest. induction s as [| x s IH]; cbn [append span_digits].
  - destruct rest as [| c r]; [reflexivity |].
    cbn [span_digits]. rewrite (Hrest c r eq_refl). reflexivity.
  - cbn [all_digits] in Hs. apply andb_prop in Hs. destruct Hs as [Hx Hs].
    rewrite Hx, (IH Hs). reflexivity.
Qed.

Lemma String_of_all_digits (n : Z) :
  0 <= n -> all_digits (String_of n) = true /\ String_of n <> EmptyString.
Proof.
  intros Hn.
  destruct (String_of_nonneg_digits n Hn) as (c & rest & -> & Hc & Hrest).
  split; [cbn [all_digits]; rewrite Hc, Hrest; reflexivity | discriminate].
Qed.

Lemma bracket_types_class (t : ascii) (k : Z) :
  In (t, k) bracket_types -> is_type_char t = true /\ 0 <= k <= 15.
Proof.
  unfold bracket_types. cbn [In]. intros H.
  repeat (destruct H as [[= <- <-] | H]; [split; [reflexivity | lia] |]).
  contradiction.
Qed.

(** A bracketed string written from its parts matches the bracketed
    expression, with the groups it was written from. *)
Lemma match_bracketed_string (t : ascii) (u a : Z) (oi : option Z) :
  is_type_char t = true -> 0 <= u <= 4 -> 0 <= a < 10 ^ 10 ->
  (forall i, oi = Some i -> 0 <= i) ->
  match_steam3 (bracketed_string t u a oi) =
    Some {| s3_type := String t EmptyString;
            s3_universe := String_of u;
            s3_id := String_of a;
            s3_instance := option_map String_of oi |}.
Proof.
  intros Ht Hu Ha Hi.
  pose proof (re_id_String_of a Ha) as Hid.
  destruct (String_of_all_digits a ltac:(lia)) as [Hda _].
  assert (Hu' : exists c, String_of u = String c EmptyString
                          /\ in_range "0" "4" c = true).
  { assert (C : u = 0 \/ u = 1 \/ u = 2 \/ u = 3 \/ u = 4) by lia.
    destruct C as [-> | [-> | [-> | [-> | ->]]]];
      eexists; split; reflexivity. }
  destruct Hu' as (cu & Eu & Hcu).
  unfold bracketed_string. rewrite Eu.
  generalize dependent (String_of a). intros id Hid Hda.
  destruct oi as [i |]; cbn [option_map].
  - destruct (String_of_all_digits i (Hi i eq_refl)) as [Hdi Hne].
    generalize dependent (String_of i). intros inst Hdi Hne.
    destruct inst as [| c r]; [contradiction Hne; reflexivity |].
    assert (Hspan1 : span_digits (id ++ String ":" (String c (r ++ "]")))
                     = (id, String ":" (String c (r ++ "]"))))
      by (apply span_digits_app; [exact Hda | intros ? ? [= <- _]; reflexivity]).
    assert (Hspan2 : span_digits (String c (r ++ "]")) = (String c r, "]"))
      by (apply (span_digits_app (String c r) "]");
          [exact Hdi | intros ? ? [= <- _]; reflexivity]).
    unfold match_steam3. cbn [append].
    rewrite Hspan1, Ht, Hid, Hcu, Hspan2. reflexivity.
  - assert (Hspan1 : span_digits (id ++ "]") = (id, "]"))
      by (apply span_digits_app; [exact Hda | intros ? ? [= <- _]; reflexivity]).
    unfold match_steam3. cbn [append].
    rewrite Hspan1, Ht, Hid, Hcu. reflexivity.
Qed.

(** The bracketed branch for a type character of the table: the type is
    set first, from its index, then universe, instance and account
    number. *)
Lemma fromSteam3_lookup (g : steam3_groups) (t : ascii) (k : Z) :
  In (t, k) bracket_types ->
  s3_type g = String t EmptyString ->
  Number_of (s3_id g) < 4294967295 ->
  fromSteam3 g 0 =
    (d1 <- setter AccountType k 0 ;;
     d2 <- setter AccountUniverse (Number_of (s3_universe g)) d1 ;;
     d3 <- setter AccountInstance
             (bracket_instance t (option_map Number_of (s3_instance g))) d2 ;;
     setter AccountID (Number_of (s3_id g)) d3).
Proof.
  intros Hin Ht Ha. unfold fromSteam3. rewrite Ht.
  destruct (Z.geb_spec (Number_of (s3_id g)) 4294967295) as [G | _]; [lia |].
  generalize (Number_of (s3_id g)) (Number_of (s3_universe g)). intros a u.
  unfold bracket_types in Hin. cbn [In] in Hin.
  repeat (destruct Hin as [[= <- <-] | Hin];
          [destruct (s3_instance g); reflexivity |]).
  contradiction.
Qed.

Lemma bracket_chain (k u i a : Z) :
  0 <= k <= 15 -> 0 <= u <= 255 -> 0 <= i -> 0 <= a <= 0xFFFFFFFF ->
  (i <= 0xFFFF ->
   exists d,
     (d1 <- setter AccountType k 0 ;;
      d2 <- setter AccountUniverse u d1 ;;
      d3 <- setter AccountInstance i d2 ;;
      setter AccountID a d3) = Ok d
     /\ getAccountType d = k /\ getAccountUniverse d = u
     /\ getAccountInstance d = i /\ getAccountID d = a)
  /\ (0xFFFF < i ->
      (d1 <- setter AccountType k 0 ;;
       d2 <- setter AccountUniverse u d1 ;;
       d3 <- setter AccountInstance i d2 ;;
       setter AccountID a d3) = Throw ErrAccountInstance).
Proof.
  intros Hk Hu Hi Ha.
  pose proof (setter_accepts AccountType k 0 ltac:(cbn [limit]; lia)) as H1.
  rewrite H1. cbn [bind].
  match type of H1 with _ = Ok ?x => set (d1 := x) in * end.
  pose proof (setter_accepts AccountUniverse u d1 ltac:(cbn [limit]; lia)) as H2.
  rewrite H2. cbn [bind].
  match type of H2 with _ = Ok ?x => set (d2 := x) in * end.
  split; intros Hi'.
  - pose proof (setter_accepts AccountInstance i d2 ltac:(cbn [limit]; lia)) as H3.
    rewrite H3. cbn [bind].
    match type of H3 with _ = Ok ?x => set (d3 := x) in * end.
    pose proof (setter_accepts AccountID a d3 ltac:(cbn [limit]; lia)) as H4.
    rewrite H4.
    match type of H4 with _ = Ok ?x => set (d := x) in * end.
    exists d. split; [reflexivity |]. repeat split.
    + change (getter AccountType d = k).
      rewrite (setter_frame AccountID AccountType _ _ _ ltac:(discriminate) H4).
      rewrite (setter_frame AccountInstance AccountType _ _ _ ltac:(discriminate) H3).
      rewrite (setter_frame AccountUniverse AccountType _ _ _ ltac:(discriminate) H2).
      apply (setter_getter _ _ _ _ H1).
    + change (getter AccountUniverse d = u).
      rewrite (setter_frame AccountID AccountUniverse _ _ _ ltac:(discriminate) H4).
      rewrite (setter_frame AccountInstance AccountUniverse _ _ _ ltac:(discriminate) H3).
      apply (setter_getter _ _ _ _ H2).
    + change (getter AccountInstance d = i).
      rewrite (setter_frame AccountID AccountInstance _ _ _ ltac:(discriminate) H4).
      apply (setter_getter _ _ _ _ H3).
    + apply (setter_getter AccountID _ _ _ H4).
  - cbn [setter]. unfold setAccountInstance.
    destruct (Z.ltb_spec i 0); [lia |].
    destruct (Z.gtb_spec i 0xFFFF); [reflexivity | lia].
Qed.

Lemma bracket_instance_nonneg (t : ascii) (oi : option Z) :
  (forall i, oi = Some i -> 0 <= i) -> 0 <= bracket_instance t oi.
Proof.
  intros Hi. unfold bracket_instance.
  destruct (_ || _); [lia |].
  destruct oi as [i |]; [apply Hi; reflexivity |].
  destruct (Ascii.eqb t "U"); lia.
Qed.

(** The constructor on a bracketed string written from its parts, for a
    type character of the table. *)
Lemma constructor_bracketed_string (t : ascii) (k u a : Z) (oi : option Z) :
  In (t, k) bracket_types -> 0 <= u <= 4 -> 0 <= a < 4294967295 ->
  (forall i, oi = Some i -> 0 <= i) ->
  constructor (Some (VString (bracketed_string t u a oi))) =
    (d1 <- setter AccountType k 0 ;;
     d2 <- setter AccountUniverse u d1 ;;
     d3 <- setter AccountInstance (bracket_instance t oi) d2 ;;
     setter AccountID a d3).
Proof.
  intros Hin Hu Ha Hi.
  destruct (bracket_types_class t k Hin) as [Ht _].
  pose proof (match_bracketed_string t u a oi Ht Hu ltac:(lia) Hi) as Hm.
  unfold constructor. cbn [toString].
  rewrite (match_steam3_not_steam2 _ _ Hm), Hm.
  match goal with
  | |- context [fromSteam3 ?g 0] =>
      rewrite (fromSteam3_lookup g t k Hin eq_refl)
        by (cbn [s3_id]; rewrite Number_of_String_of; lia)
  end.
  cbn [s3_id s3_universe s3_instance].
  rewrite !Number_of_String_of by lia.
  replace (option_map Number_of (option_map String_of oi)) with oi;
    [reflexivity |].
  destruct oi as [i |]; [| reflexivity].
  cbn [option_map]. rewrite Number_of_String_of by (apply Hi; reflexivity).
  reflexivity.
Qed.

Lemma bracketed_fields (t : ascii) (k u a : Z) (oi : option Z) :
  In (t, k) bracket_types -> 0 <= u <= 4 -> 0 <= a < 4294967295 ->
  (forall i, oi = Some i -> 0 <= i) ->
  bracket_instance t oi <= 0xFFFF ->
  exists d,
    constructor (Some (VString (bracketed_string t u a oi))) = Ok d
    /\ getAccountType d = k /\ getAccountUniverse d = u
    /\ getAccountInstance d = bracket_instance t oi /\ getAccountID d = a.
Proof.
  intros Hin Hu Ha Hi Hle.
  rewrite (constructor_bracketed_string t k u a oi Hin Hu Ha Hi).
  destruct (bracket_types_class t k Hin) as [_ Hk].
  destruct (bracket_chain k u (bracket_instance t oi) a Hk ltac:(lia)
              (bracket_instance_nonneg t oi Hi) ltac:(lia)) as [Hok _].
  apply Hok, Hle.
Qed.

(** X15: the bracketed grammar, accepted inputs.  For a type character
    other than [c] and [L], a universe digit from 0 to 4, an account number
    below 4294967295 and an instance that ends up at most [0xFFFF], the
    constructor succeeds.  The type is the index of the character in the
    table ([i] counts as [I]); the instance is 0 for [T] and [g], else the
    instance segment when there is one, else 1 for [U] and 0 for the
    others.  The bracketed render of the result has [I] for [i], shows the
    instance for [M] and [A] only, and is otherwise the input without its
    instance segment. *)
Theorem bracketed_constructs (t : ascii) (k u a : Z) (oi : option Z) :
  In (t, k) bracket_types -> 0 <= u <= 4 -> 0 <= a < 4294967295 ->
  (forall i, oi = Some i -> 0 <= i) ->
  bracket_instance t oi <= 0xFFFF ->
  exists d,
    constructor (Some (VString (bracketed_string t u a oi))) = Ok d
    /\ getAccountType d = k /\ getAccountUniverse d = u
    /\ getAccountInstance d = bracket_instance t oi /\ getAccountID d = a
    /\ renderSteam3 d
       = bracketed_string (if Ascii.eqb t "i" then "I"%char else t) u a
           (if Ascii.eqb t "M" || Ascii.eqb t "A"
            then Some (bracket_instance t oi) else None).
Proof.
  intros Hin Hu Ha Hi Hle.
  destruct (bracketed_fields t k u a oi Hin Hu Ha Hi Hle)
    as (d & E & Gt & Gu & Gi & Ga).
  exists d. repeat split; try assumption.
  unfold renderSteam3. rewrite Gt, Gu, Gi, Ga.
  unfold bracketed_string.
  generalize (String_of u) (String_of a). intros su sa.
  unfold bracket_types in Hin. cbn [In] in Hin.
  repeat (destruct Hin as [[= <- <-] | Hin];
          [cbn; rewrite ?append_assoc; cbn [append];
           rewrite ?append_assoc; reflexivity |]).
  contradiction.
Qed.

Lemma bracketed_constructs_witness :
  exists d,
    constructor (Some (VString "[i:1:7:42]")) = Ok d
    /\ getAccountType d = 0 /\ getAccountUniverse d = 1
    /\ getAccountInstance d = 42 /\ getAccountID d = 7
    /\ renderSteam3 d = "[I:1:7]".
Proof.
  apply (bracketed_constructs "i" 0 1 7 (Some 42)).
  - cbn. tauto.
  - lia.
  - lia.
  - intros i [= <-]. lia.
  - cbn. lia.
Defined.



(** X17: which bracketed strings of type [U] give a valid identifier.
    With a universe from 1 to 4 and an account number from 1 to
    4294967294, the identifier constructed from [[U:u:a]] or from
    [[U:u:a:i]] is valid exactly when the instance segment is there and
    reads 0; without the segment the instance is 1, and [isValid] is
    false. *)
Theorem bracketed_individual_valid (u a : Z) (oi : option Z) :
  1 <= u <= 4 -> 1 <= a < 4294967295 ->
  (forall i, oi = Some i -> 0 <= i <= 0xFFFF) ->
  exists d,
    constructor (Some (VString (bracketed_string "U" u a oi))) = Ok d
    /\ (isValid d = true <-> oi = Some 0).
Proof.
  intros Hu Ha Hi.
  assert (Hinst : bracket_instance "U" oi
                  = match oi with Some i => i | None => 1 end)
    by (destruct oi; reflexivity).
  destruct (bracketed_fields "U" 1 u a oi) as (d & E & Gt & Gu & Gi & Ga);
    [cbn; tauto | lia | lia | intros i Hs; apply (Hi i Hs) | |].
  { rewrite Hinst. destruct oi as [i |]; [apply (Hi i eq_refl) | lia]. }
  exists d. split; [exact E |].
  unfold isValid. rewrite Gt, Gu, Gi, Ga, Hinst.
  cbn [TypeInvalid TypeAnonUser TypeIndividual Z.leb Z.gtb Z.compare orb
       Pos.compare Pos.compare_cont].
  unfold UniverseInvalid, UniverseDev.
  destruct (Z.leb_spec u 0); [lia |].
  destruct (Z.gtb_spec u 4); [lia |].
  destruct (Z.eqb_spec a 0); [lia |].
  cbn.
  destruct oi as [i |].
  - destruct (Z.eqb_spec i 0) as [-> | Hne]; cbn.
    + split; reflexivity.
    + split; [discriminate | intros [= ->]; contradiction].
  - cbn. split; discriminate.
Qed.

Lemma bracketed_individual_valid_witness :
  exists d,
    constructor (Some (VString "[U:1:22202:0]")) = Ok d
    /\ (isValid d = true <-> Some 0 = Some 0).
Proof.
  apply (bracketed_individual_valid 1 22202 (Some 0));
    [lia | lia | intros i [= <-]; lia].
Defined.

(** ** More on the invite code *)

Lemma toString16_inj (a1 a2 : Z) :
  0 <= a1 -> 0 <= a2 -> toString16 a1 = toString16 a2 -> a1 = a2.
Proof.
  intros H1 H2 E. unfold toString16 in E.
  assert (Hnil : forall n, N.to_hex_uint n <> Hexadecimal.Nil).
  { intros [| p]; [discriminate | apply HexadecimalPos.Unsigned.to_uint_nonnil]. }
  apply (f_equal HexadecimalString.NilZero.uint_of_string) in E.
  rewrite !HexadecimalString.NilZero.usu in E by apply Hnil.
  injection E as E. apply HexadecimalN.Unsigned.to_uint_inj in E.
  apply (f_equal Z.of_N) in E. rewrite !Z2N.id in E; assumption.
Qed.

(** The characters of [toString(16)] are in the alphabet of the table. *)
Lemma toString16_alphabet (a : Z) :
  Forall (fun c => In c (List.map fst invite_table))
         (list_ascii_of_string (toString16 a)).
Proof.
  unfold toString16, HexadecimalString.NilZero.string_of_uint.
  assert (H : forall d,
             Forall (fun c => In c (List.map fst invite_table))
               (list_ascii_of_string (HexadecimalString.NilEmpty.string_of_uint d))).
  { induction d;
      cbn [HexadecimalString.NilEmpty.string_of_uint list_ascii_of_string];
      [constructor | ..]; (constructor; [cbn; tauto | assumption]). }
  destruct (N.to_hex_uint (Z.to_N a)) eqn:E; try (rewrite <- E; apply H).
  constructor; [cbn; tauto | constructor].
Qed.

(** The table is one-to-one, and no image is the hyphen. *)
Lemma substitute_inj (c1 c2 : ascii) :
  In c1 (List.map fst invite_table) -> In c2 (List.map fst invite_table) ->
  substitute c1 = substitute c2 -> c1 = c2.
Proof.
  cbn [List.map fst invite_table In]. intros H1 H2.
  repeat (destruct H1 as [<- | H1]);
    try contradiction;
    repeat (destruct H2 as [<- | H2]);
    try contradiction; intros E; try reflexivity; discriminate E.
Qed.

Lemma substitute_not_hyphen (c : ascii) :
  In c (List.map fst invite_table) ->
  negb (Ascii.eqb (substitute c) "-") = true.
Proof.
  cbn [List.map fst invite_table In]. intros H.
  repeat (destruct H as [<- | H]); try contradiction; reflexivity.
Qed.

Lemma map_substitute_inj (l1 l2 : list ascii) :
  Forall (fun c => In c (List.map fst invite_table)) l1 ->
  Forall (fun c => In c (List.map fst invite_table)) l2 ->
  List.map substitute l1 = List.map substitute l2 -> l1 = l2.
Proof.
  intros F1. revert l2.
  induction F1 as [| x l1 Hx F1 IH]; intros l2 F2 E.
  - destruct l2; [reflexivity | discriminate E].
  - destruct F2 as [| y l2 Hy F2]; [discriminate E |].
    cbn [List.map] in E. injection E as Exy E.
    f_equal; [apply substitute_inj; assumption | apply IH; assumption].
Qed.

(** Taking the hyphens out of a hyphenated code gives the code back, when
    it had none of its own. *)
Lemma unhyphenate (l : list ascii) :
  Forall (fun c => negb (Ascii.eqb c "-") = true) l ->
  filter (fun c => negb (Ascii.eqb c "-")) (hyphenate l) = l.
Proof.
  intros F.
  assert (Hid : filter (fun c => negb (Ascii.eqb c "-")) l = l).
  { induction F as [| x l Hx F IH]; [reflexivity |].
    cbn [filter]. rewrite Hx, IH. reflexivity. }
  unfold hyphenate. destruct (3 <? List.length l)%nat; [| exact Hid].
  assert (Hdrop : forall l',
             filter (fun c => negb (Ascii.eqb c "-")) ("-"%char :: l')
             = filter (fun c => negb (Ascii.eqb c "-")) l') by reflexivity.
  rewrite filter_app, Hdrop, <- filter_app, firstn_skipn. exact Hid.
Qed.

Lemma invite_code_inj (a1 a2 : Z) :
  0 <= a1 -> 0 <= a2 -> invite_code a1 = invite_code a2 -> a1 = a2.
Proof.
  intros H1 H2 E. unfold invite_code in E.
  apply (f_equal list_ascii_of_string) in E.
  rewrite !list_ascii_of_string_of_list_ascii in E.
  apply (f_equal (filter (fun c => negb (Ascii.eqb c "-")))) in E.
  assert (Hclean : forall a,
             Forall (fun c => negb (Ascii.eqb c "-") = true)
               (List.map substitute (list_ascii_of_string (toString16 a)))).
  { intros a. pose proof (toString16_alphabet a) as F.
    induction F as [| x l Hx F IH]; cbn [List.map]; constructor;
      [apply substitute_not_hyphen, Hx | exact IH]. }
  rewrite !unhyphenate in E by apply Hclean.
  apply map_substitute_inj in E; try apply toString16_alphabet.
  apply toString16_inj; try assumption.
  rewrite <- (string_of_list_ascii_of_string (toString16 a1)),
          <- (string_of_list_ascii_of_string (toString16 a2)), E.
  reflexivity.
Qed.

(** X18: invite codes tell account numbers apart.  Two identifiers of
    type Invalid or Individual with the same invite code have the same
    account number: the table is one-to-one, and the hyphen, which no
    digit maps to, can be taken out again. *)
Theorem renderSteamInvite_injective (d1 d2 : Z) :
  getAccountType d1 = TypeInvalid \/ getAccountType d1 = TypeIndividual ->
  getAccountType d2 = TypeInvalid \/ getAccountType d2 = TypeIndividual ->
  renderSteamInvite d1 = renderSteamInvite d2 ->
  getAccountID d1 = getAccountID d2.
Proof.
  intros T1 T2 E.
  rewrite (renderSteamInvite_individual d1 T1),
          (renderSteamInvite_individual d2 T2) in E.
  injection E as E.
  apply invite_code_inj; [apply (get_bounds 0 32) | apply (get_bounds 0 32) | exact E];
    lia.
Qed.

Lemma renderSteamInvite_injective_witness :
  getAccountID 76561197960287930 = getAccountID 22202.
Proof.
  apply (renderSteamInvite_injective 76561197960287930 22202);
    [right; reflexivity | left; reflexivity | reflexivity].
Defined.

(** ** More on the helpers and the renders *)

Lemma array_search_from_spec (needle : string) (haystack : list string) :
  forall i : Z,
    (~ In needle haystack /\ array_search_from i needle haystack = -1)
    \/ (exists n, array_search_from i needle haystack = i + Z.of_nat n
                  /\ nth_error haystack n = Some needle
                  /\ forall j, (j < n)%nat -> nth_error haystack j <> Some needle).
Proof.
  induction haystack as [| h rest IH]; intros i.
  - left. split; [intros [] | reflexivity].
  - cbn [array_search_from].
    destruct (String.eqb_spec needle h) as [-> | Hne].
    + right. exists 0%nat. repeat split; [lia | intros j Hj; lia].
    + destruct (IH (i + 1)) as [[Hnin E] | (n & E & Hn & Hfirst)].
      * left. split; [| exact E].
        intros [Hh | Hin]; [apply Hne; symmetry; exact Hh | exact (Hnin Hin)].
      * right. exists (S n). repeat split.
        -- rewrite E. lia.
        -- exact Hn.
        -- intros [| j] Hj; cbn [nth_error].
           ++ intros [= Eh]. apply Hne. symmetry. exact Eh.
           ++ apply Hfirst. lia.
Qed.

(** X19: [array_search] returns -1 exactly when the needle is not in the
    haystack, and otherwise the index of its first occurrence. *)
Theorem array_search_spec (needle : string) (haystack : list string) :
  (array_search needle haystack = -1 <-> ~ In needle haystack)
  /\ (In needle haystack ->
      exists n, array_search needle haystack = Z.of_nat n
                /\ nth_error haystack n = Some needle
                /\ forall j, (j < n)%nat -> nth_error haystack j <> Some needle).
Proof.
  unfold array_search.
  destruct (array_search_from_spec needle haystack 0)
    as [[Hnin E] | (n & E & Hn & Hfirst)].
  - split; [split; [intros _; exact Hnin | intros _; exact E] |].
    intros Hin. contradiction.
  - split.
    + split; [intros E'; rewrite E in E'; lia |].
      intros Hnin. exfalso. apply Hnin. apply (nth_error_In _ _ Hn).
    + intros _. exists n. repeat split; [rewrite E; lia | exact Hn | exact Hfirst].
Qed.

Lemma array_search_spec_witness :
  exists n, array_search "g" accountTypeChars = Z.of_nat n
            /\ nth_error accountTypeChars n = Some "g"
            /\ forall j, (j < n)%nat -> nth_error accountTypeChars j <> Some "g".
Proof.
  destruct (array_search_spec "g" accountTypeChars) as [_ H].
  apply H. cbn. tauto.
Defined.

(** X20: the bracketed render of a P2PSuperSeeder identifier (type 9)
    cannot be read back.  Its type character is the empty entry of the
    table, so the render starts with [[:], which neither grammar matches
    and which is not numeric: the constructor throws the
    invalid-identifier error, whatever the other fields are. *)
Theorem renderSteam3_superseeder_unreadable (d : Z) :
  getAccountType d = TypeP2PSuperSeeder ->
  constructor (Some (VString (renderSteam3 d))) = Throw ErrInvalid.
Proof.
  intros Ht.
  assert (Hshape : exists rest, renderSteam3 d = String "[" (String ":" rest)).
  { unfold renderSteam3. rewrite Ht. cbn. eexists. reflexivity. }
  destruct Hshape as (rest & ->).
  unfold constructor. cbn [toString].
  change (match_steam2 (String "[" (String ":" rest))) with (@None steam2_groups).
  assert (E3 : match_steam3 (String "[" (String ":" rest)) = None).
  { destruct rest as [| c1 [| u [| c2 tail]]]; try reflexivity.
    unfold match_steam3. destruct (span_digits tail). reflexivity. }
  rewrite E3. reflexivity.
Qed.

Lemma renderSteam3_superseeder_unreadable_witness :
  renderSteam3 112589990684262405 = "[:1:5]"
  /\ constructor (Some (VString "[:1:5]")) = Throw ErrInvalid.
Proof.
  split; [reflexivity |].
  apply (renderSteam3_superseeder_unreadable 112589990684262405). reflexivity.
Defined.

(** The bracketed render of an identifier whose type has a character in
    the table, and which, if it is a Chat, has neither the Clan nor the
    Lobby flag in its instance. *)
Lemma renderSteam3_table (d : Z) (t : ascii) (k : Z) :
  In (t, k) bracket_types -> t <> "i"%char ->
  getAccountType d = k ->
  (k = TypeChat ->
   number_and (getAccountInstance d) InstanceFlagClan = 0
   /\ number_and (getAccountInstance d) InstanceFlagLobby = 0) ->
  renderSteam3 d
  = bracketed_string t (getAccountUniverse d) (getAccountID d)
      (if (k =? TypeAnonGameServer) || (k =? TypeMultiseat)
       then Some (getAccountInstance d) else None).
Proof.
  intros Hin Hi Ht Hflags.
  unfold renderSteam3. cbv zeta. rewrite Ht. unfold bracketed_string.
  assert (Hchat : k = TypeChat ->
                  negb (number_and (getAccountInstance d) InstanceFlagClan =? 0) = false
                  /\ negb (number_and (getAccountInstance d) InstanceFlagLobby =? 0) = false)
    by (intros Hk; destruct (Hflags Hk) as [-> ->]; split; reflexivity).
  clear Hflags.
  generalize dependent (number_and (getAccountInstance d) InstanceFlagClan).
  generalize dependent (number_and (getAccountInstance d) InstanceFlagLobby).
  intros fl fc Hchat.
  unfold bracket_types in Hin. cbn [In] in Hin.
  repeat (destruct Hin as [[= <- <-] | Hin];
          [first [ exfalso; apply Hi; reflexivity
                 | try (destruct (Hchat eq_refl) as [-> ->]);
                   cbv beta iota delta [TypeAnonGameServer TypeMultiseat TypeChat
                                         Z.eqb Pos.eqb orb Z.to_nat Pos.to_nat
                                         Pos.iter_op Nat.add nth_error accountTypeChars];
                   generalize (String_of (getAccountUniverse d))
                              (String_of (getAccountID d))
                              (String_of (getAccountInstance d));
                   intros su sa si;
                   cbn [append]; rewrite ?append_assoc; cbn [append];
                   rewrite ?append_assoc; reflexivity ] |]).
  contradiction.
Qed.

(** X21: reading back the bracketed render.  Take an identifier whose
    type has a character in the table (types 0 to 8 and 10; a Chat
    without the Clan and Lobby flags), with a universe up to 4, an account
    number below 4294967295 and, for Multiseat and AnonGameServer, an
    instance up to [0xFFFF].  Constructing from its bracketed render
    succeeds and gives the same type, universe and account number.  The
    instance is kept for Multiseat and AnonGameServer only; it becomes 1
    for an Individual and 0 for the other types. *)
Theorem renderSteam3_reads_back (d : Z) (t : ascii) (k : Z) :
  In (t, k) bracket_types -> t <> "i"%char ->
  getAccountType d = k ->
  (k = TypeChat ->
   number_and (getAccountInstance d) InstanceFlagClan = 0
   /\ number_and (getAccountInstance d) InstanceFlagLobby = 0) ->
  getAccountUniverse d <= 4 -> getAccountID d < 4294967295 ->
  (k = TypeMultiseat \/ k = TypeAnonGameServer -> getAccountInstance d <= 0xFFFF) ->
  exists d',
    constructor (Some (VString (renderSteam3 d))) = Ok d'
    /\ getAccountType d' = k
    /\ getAccountUniverse d' = getAccountUniverse d
    /\ getAccountID d' = getAccountID d
    /\ getAccountInstance d'
       = (if (k =? TypeAnonGameServer) || (k =? TypeMultiseat)
          then getAccountInstance d
          else if k =? TypeIndividual then 1 else 0).
Proof.
  intros Hin Hi Ht Hflags Hu Ha Hinst.
  rewrite (renderSteam3_table d t k Hin Hi Ht Hflags).
  pose proof (get_bounds 0 32 d ltac:(lia)) as Ba.
  pose proof (get_bounds 56 8 d ltac:(lia)) as Bu.
  pose proof (get_bounds 32 20 d ltac:(lia)) as Bi.
  change (get 0 (Z.ones 32) d) with (getAccountID d) in Ba.
  change (get 56 (Z.ones 8) d) with (getAccountUniverse d) in Bu.
  change (get 32 (Z.ones 20) d) with (getAccountInstance d) in Bi.
  set (oi := if (k =? TypeAnonGameServer) || (k =? TypeMultiseat)
             then Some (getAccountInstance d) else None).
  assert (Hoi : forall i, oi = Some i -> 0 <= i).
  { intros i. unfold oi. destruct (_ || _); intros [= <-]. lia. }
  assert (Hbi : bracket_instance t oi
                = (if (k =? TypeAnonGameServer) || (k =? TypeMultiseat)
                   then getAccountInstance d
                   else if k =? TypeIndividual then 1 else 0)).
  { unfold oi. clear - Hin. unfold bracket_types in Hin. cbn [In] in Hin.
    repeat (destruct Hin as [[= <- <-] | Hin]; [reflexivity |]).
    contradiction. }
  destruct (bracketed_fields t k (getAccountUniverse d) (getAccountID d) oi)
    as (d' & E & Gt & Gu & Gi & Ga); try assumption; try lia.
  { rewrite Hbi.
    destruct (Z.eqb_spec k TypeAnonGameServer) as [E4 | _]; cbn [orb];
      [apply Hinst; right; exact E4 |].
    destruct (Z.eqb_spec k TypeMultiseat) as [E2 | _];
      [apply Hinst; left; exact E2 |].
    destruct (k =? TypeIndividual); lia. }
  exists d'. rewrite <- Hbi. repeat split; assumption.
Qed.

Lemma renderSteam3_reads_back_witness :
  exists d',
    constructor (Some (VString (renderSteam3 76561206550222522))) = Ok d'
    /\ getAccountType d' = 1
    /\ getAccountUniverse d' = getAccountUniverse 76561206550222522
    /\ getAccountID d' = getAccountID 76561206550222522
    /\ getAccountInstance d' = 1.
Proof.
  apply (renderSteam3_reads_back 76561206550222522 "U" 1).
  - cbn. tauto.
  - discriminate.
  - reflexivity.
  - discriminate.
  - discriminate.
  - reflexivity.
  - intros [H | H]; discriminate H.
Defined.
